(** * stompest: the Twisted STOMP client ([stompest/async/client.py])

    A shallow embedding of [StompClient] and the properties of its
    connect / dispatch / drain / disconnect life cycle.

    Conventions of the embedding.
    - A method of the client is a computation in the monad [M]: it takes the
      client (plus the part of the environment it talks to) and returns a
      result or a raised exception together with the new state.  As in
      Python, what was mutated before a [raise] stays mutated.
    - The transport is the chronological list of calls made on it
      ([transport.write], [transport.loseConnection]); frames are written
      unserialised, the codec being outside the client.
    - A [Deferred] held in one of the three slots of the client is pending:
      the code assigns fresh Deferreds only and clears the slot right after
      firing.  Firing is recorded in [fired], by identity of the Deferred.
    - [log] records the calls to [log.warning], [log.error] and [log.info];
      debug output is left out.
    - A message handler is user code; it is described by what
      [defer.maybeDeferred] sees of it: it returns, it raises (an
      [Exception]), or it hands back a Deferred that fires later.  Handlers
      do not call back into the client while they run.
    - The generators of [_handleMessage] that are parked at their [yield]
      are kept in [suspended], each with the local variables it captured. *)

From Stdlib Require Import ZArith String List Lia.
From stdpp Require Import base option gmap strings list pretty.

Open Scope string_scope.

(** ** Frames, tokens, exceptions *)

Abbreviation Headers := (gmap string string).
Abbreviation Token := (string * string)%type.

Record Frame := {
  cmd : string;
  headers : Headers;
  body : string
}.

Inductive ProtocolViolation :=
| DuplicateMessage (messageId : string)
| ErrorWhileConnecting (msg : Frame)
| ErrorReceived (msg : Frame).

Inductive Exc :=
| StompConnectTimeout (timeout : Z)
| StompProtocolError (what : ProtocolViolation)
| StompFrameError (msg : Frame)
| StompConnectionError
| UnknownSubscription (tok : Token)
| KeyError (key : string)
| AttributeError
| HandlerError (descr : string).

(** What [defer.maybeDeferred(handler, client, msg)] gives back. *)
Inductive HandlerBehaviour :=
| Returns
| Raises (e : Exc)
| Defers.

Abbreviation Handler := (Frame -> HandlerBehaviour).

Record Context := {
  ctx_handler : Handler;
  ctx_kwargs : gmap string string
}.

(** Modelled from the spec: the header names of [StompSpec]
    ([stompest/protocol/spec.py]), protocol-fixed constants. *)
Module StompSpec.
Definition MESSAGE_ID_HEADER := "message-id".
Definition DESTINATION_HEADER := "destination".
Definition ID_HEADER := "id".
Definition ACK_HEADER := "ack".
End StompSpec.

(** Modelled from the spec: the frame constructors of
    [stompest/protocol/commands.py]. *)
Module commands.
Definition connect (login passcode : string) : Frame :=
  {| cmd := "CONNECT";
     headers := {[ "login" := login; "passcode" := passcode ]};
     body := "" |}.

Definition disconnect : Frame :=
  {| cmd := "DISCONNECT"; headers := ∅; body := "" |}.

Definition ack (h : Headers) : Frame :=
  {| cmd := "ACK"; headers := h; body := "" |}.

Definition send (dest msg : string) (h : option Headers) : Frame :=
  {| cmd := "SEND";
     headers := <[ StompSpec.DESTINATION_HEADER := dest ]> (default ∅ h);
     body := msg |}.

Definition subscribe (h : Headers) : Frame :=
  {| cmd := "SUBSCRIBE"; headers := h; body := "" |}.

Definition unsubscribe (tok : Token) : Frame :=
  {| cmd := "UNSUBSCRIBE";
     headers := {[ StompSpec.DESTINATION_HEADER := tok.1;
                   StompSpec.ID_HEADER := tok.2 ]};
     body := "" |}.
End commands.

(** Modelled from the spec: [cloneStompMessage(msg, persistent=True)] of
    [stompest/util.py]; the clone carries the body and the headers of the
    message and is marked persistent. *)
Definition _cloneStompMessage (msg : Frame) : Frame :=
  {| cmd := cmd msg;
     headers := <[ "persistent" := "true" ]> (headers msg);
     body := body msg |}.

(** ** Session state *)

(** Modelled from the spec: [StompSession] of
    [stompest/protocol/session.py] (section 4.1): the ordered mapping of the
    recorded subscriptions and the counter for fresh subscription ids.
    [replay] is the one the client calls, both to replay after CONNECTED and
    to forget on a graceful disconnect: it hands out the recorded
    subscriptions in insertion order and clears the record. *)
Module StompSession.
Abbreviation Entry := (string * Headers * Context)%type.

Record t := {
  subscriptions : list (Token * Entry);
  nextSubscription : nat
}.

Definition empty : t := {| subscriptions := []; nextSubscription := 0 |}.

(** destination + subscription-id header; a missing header is a
    [KeyError], here [None]. *)
Definition token (h : Headers) : option Token :=
  match h !! StompSpec.DESTINATION_HEADER, h !! StompSpec.ID_HEADER with
  | Some d, Some i => Some (d, i)
  | _, _ => None
  end.

Fixpoint put (tok : Token) (e : Entry) (l : list (Token * Entry)) :=
  match l with
  | [] => [(tok, e)]
  | (tok', e') :: l' =>
      if decide (tok' = tok) then (tok, e) :: l' else (tok', e') :: put tok e l'
  end.

Fixpoint get (tok : Token) (l : list (Token * Entry)) : option Entry :=
  match l with
  | [] => None
  | (tok', e') :: l' => if decide (tok' = tok) then Some e' else get tok l'
  end.

Fixpoint remove (tok : Token) (l : list (Token * Entry)) :=
  match l with
  | [] => []
  | (tok', e') :: l' =>
      if decide (tok' = tok) then l' else (tok', e') :: remove tok l'
  end.

Definition subscribe (dest : string) (h : option Headers) (ctx : Context)
    (s : t) : Frame * t :=
  let h0 := <[ StompSpec.DESTINATION_HEADER := dest ]> (default ∅ h) in
  let '(h1, next) :=
    match h0 !! StompSpec.ID_HEADER with
    | Some _ => (h0, nextSubscription s)
    | None => (<[ StompSpec.ID_HEADER := pretty (nextSubscription s) ]> h0,
               S (nextSubscription s))
    end in
  let tok := (dest, default "" (h1 !! StompSpec.ID_HEADER)) in
  (commands.subscribe h1,
   {| subscriptions := put tok (dest, h1, ctx) (subscriptions s);
      nextSubscription := next |}).

Definition unsubscribe (tok : Token) (s : t) : Exc + Frame * t :=
  match get tok (subscriptions s) with
  | None => inl (UnknownSubscription tok)
  | Some _ =>
      inr (commands.unsubscribe tok,
           {| subscriptions := remove tok (subscriptions s);
              nextSubscription := nextSubscription s |})
  end.

Definition replay (s : t) : list Entry * t :=
  (map snd (subscriptions s),
   {| subscriptions := []; nextSubscription := nextSubscription s |}).
End StompSession.

(** ** The client and its environment *)

(** An entry of the client's own registry [self._subscriptions]. *)
Record Subscription := {
  destination : string;
  handler : Handler;
  ack : string;
  errorDestination : option string
}.

Inductive TransportCall :=
| Write (f : Frame)
| LoseConnection.

Inductive Outcome :=
| Success
| Failure (e : Exc).

(** The one callback the client itself chains on a Deferred:
    [lambda _: self._disconnect()]. *)
Inductive Callback :=
| CallDisconnect.

Record Deferred := {
  ident : nat;
  callbacks : list Callback
}.

Inductive LogRecord :=
| WarnCannotUnsubscribe (tok : Token)
| WarnNoHandlerFound (messageId : string) (h : Headers)
| ErrorInMessageHandler (e : Exc)
| ErrorConnectTimedOut (timeout : Z)
| ErrorLostBeforeConnected
| InfoReceivedError (msg : Frame)
| InfoReceivedReceipt (msg : Frame).

(** The local variables of a [_handleMessage] generator parked at its
    [yield]. *)
Record Continuation := {
  k_messageId : string;
  k_msg : Frame;
  k_subscription : Subscription
}.

Record StompClient := {
  _session : StompSession.t;
  _alwaysDisconnectOnUnhandledMsg : bool;
  _subscriptions : gmap Token Subscription;
  _connectedDeferred : option Deferred;
  _connectTimeoutDelayedCall : option Z;
  _connectError : option Exc;
  _disconnectedDeferred : option Deferred;
  _finishedHandlersDeferred : option Deferred;
  _disconnecting : bool;
  _disconnectError : option Exc;
  _activeHandlers : gset string;
  (* environment *)
  transport : list TransportCall;
  log : list LogRecord;
  nextDeferred : nat;
  fired : list (nat * Outcome);
  suspended : list Continuation
}.

(** [StompClient.__init__] *)
Definition __init__ (session : option StompSession.t)
    (alwaysDisconnectOnUnhandledMsg : bool) : StompClient :=
  {| _session := default StompSession.empty session;
     _alwaysDisconnectOnUnhandledMsg := alwaysDisconnectOnUnhandledMsg;
     _subscriptions := ∅;
     _connectedDeferred := None;
     _connectTimeoutDelayedCall := None;
     _connectError := None;
     _disconnectedDeferred := None;
     _finishedHandlersDeferred := None;
     _disconnecting := false;
     _disconnectError := None;
     _activeHandlers := ∅;
     transport := [];
     log := [];
     nextDeferred := 0;
     fired := [];
     suspended := [] |}.

Definition with_session v c :=
  Build_StompClient v (_alwaysDisconnectOnUnhandledMsg c) (_subscriptions c) (_connectedDeferred c) (_connectTimeoutDelayedCall c) (_connectError c) (_disconnectedDeferred c) (_finishedHandlersDeferred c) (_disconnecting c) (_disconnectError c) (_activeHandlers c) (transport c) (log c) (nextDeferred c) (fired c) (suspended c).
Definition with_subscriptions v c :=
  Build_StompClient (_session c) (_alwaysDisconnectOnUnhandledMsg c) v (_connectedDeferred c) (_connectTimeoutDelayedCall c) (_connectError c) (_disconnectedDeferred c) (_finishedHandlersDeferred c) (_disconnecting c) (_disconnectError c) (_activeHandlers c) (transport c) (log c) (nextDeferred c) (fired c) (suspended c).
Definition with_connectedDeferred v c :=
  Build_StompClient (_session c) (_alwaysDisconnectOnUnhandledMsg c) (_subscriptions c) v (_connectTimeoutDelayedCall c) (_connectError c) (_disconnectedDeferred c) (_finishedHandlersDeferred c) (_disconnecting c) (_disconnectError c) (_activeHandlers c) (transport c) (log c) (nextDeferred c) (fired c) (suspended c).
Definition with_connectTimeoutDelayedCall v c :=
  Build_StompClient (_session c) (_alwaysDisconnectOnUnhandledMsg c) (_subscriptions c) (_connectedDeferred c) v (_connectError c) (_disconnectedDeferred c) (_finishedHandlersDeferred c) (_disconnecting c) (_disconnectError c) (_activeHandlers c) (transport c) (log c) (nextDeferred c) (fired c) (suspended c).
Definition with_connectError v c :=
  Build_StompClient (_session c) (_alwaysDisconnectOnUnhandledMsg c) (_subscriptions c) (_connectedDeferred c) (_connectTimeoutDelayedCall c) v (_disconnectedDeferred c) (_finishedHandlersDeferred c) (_disconnecting c) (_disconnectError c) (_activeHandlers c) (transport c) (log c) (nextDeferred c) (fired c) (suspended c).
Definition with_disconnectedDeferred v c :=
  Build_StompClient (_session c) (_alwaysDisconnectOnUnhandledMsg c) (_subscriptions c) (_connectedDeferred c) (_connectTimeoutDelayedCall c) (_connectError c) v (_finishedHandlersDeferred c) (_disconnecting c) (_disconnectError c) (_activeHandlers c) (transport c) (log c) (nextDeferred c) (fired c) (suspended c).
Definition with_finishedHandlersDeferred v c :=
  Build_StompClient (_session c) (_alwaysDisconnectOnUnhandledMsg c) (_subscriptions c) (_connectedDeferred c) (_connectTimeoutDelayedCall c) (_connectError c) (_disconnectedDeferred c) v (_disconnecting c) (_disconnectError c) (_activeHandlers c) (transport c) (log c) (nextDeferred c) (fired c) (suspended c).
Definition with_disconnecting v c :=
  Build_StompClient (_session c) (_alwaysDisconnectOnUnhandledMsg c) (_subscriptions c) (_connectedDeferred c) (_connectTimeoutDelayedCall c) (_connectError c) (_disconnectedDeferred c) (_finishedHandlersDeferred c) v (_disconnectError c) (_activeHandlers c) (transport c) (log c) (nextDeferred c) (fired c) (suspended c).
Definition with_disconnectError v c :=
  Build_StompClient (_session c) (_alwaysDisconnectOnUnhandledMsg c) (_subscriptions c) (_connectedDeferred c) (_connectTimeoutDelayedCall c) (_connectError c) (_disconnectedDeferred c) (_finishedHandlersDeferred c) (_disconnecting c) v (_activeHandlers c) (transport c) (log c) (nextDeferred c) (fired c) (suspended c).
Definition with_activeHandlers v c :=
  Build_StompClient (_session c) (_alwaysDisconnectOnUnhandledMsg c) (_subscriptions c) (_connectedDeferred c) (_connectTimeoutDelayedCall c) (_connectError c) (_disconnectedDeferred c) (_finishedHandlersDeferred c) (_disconnecting c) (_disconnectError c) v (transport c) (log c) (nextDeferred c) (fired c) (suspended c).
Definition with_transport v c :=
  Build_StompClient (_session c) (_alwaysDisconnectOnUnhandledMsg c) (_subscriptions c) (_connectedDeferred c) (_connectTimeoutDelayedCall c) (_connectError c) (_disconnectedDeferred c) (_finishedHandlersDeferred c) (_disconnecting c) (_disconnectError c) (_activeHandlers c) v (log c) (nextDeferred c) (fired c) (suspended c).
Definition with_log v c :=
  Build_StompClient (_session c) (_alwaysDisconnectOnUnhandledMsg c) (_subscriptions c) (_connectedDeferred c) (_connectTimeoutDelayedCall c) (_connectError c) (_disconnectedDeferred c) (_finishedHandlersDeferred c) (_disconnecting c) (_disconnectError c) (_activeHandlers c) (transport c) v (nextDeferred c) (fired c) (suspended c).
Definition with_nextDeferred v c :=
  Build_StompClient (_session c) (_alwaysDisconnectOnUnhandledMsg c) (_subscriptions c) (_connectedDeferred c) (_connectTimeoutDelayedCall c) (_connectError c) (_disconnectedDeferred c) (_finishedHandlersDeferred c) (_disconnecting c) (_disconnectError c) (_activeHandlers c) (transport c) (log c) v (fired c) (suspended c).
Definition with_fired v c :=
  Build_StompClient (_session c) (_alwaysDisconnectOnUnhandledMsg c) (_subscriptions c) (_connectedDeferred c) (_connectTimeoutDelayedCall c) (_connectError c) (_disconnectedDeferred c) (_finishedHandlersDeferred c) (_disconnecting c) (_disconnectError c) (_activeHandlers c) (transport c) (log c) (nextDeferred c) v (suspended c).
Definition with_suspended v c :=
  Build_StompClient (_session c) (_alwaysDisconnectOnUnhandledMsg c) (_subscriptions c) (_connectedDeferred c) (_connectTimeoutDelayedCall c) (_connectError c) (_disconnectedDeferred c) (_finishedHandlersDeferred c) (_disconnecting c) (_disconnectError c) (_activeHandlers c) (transport c) (log c) (nextDeferred c) (fired c) v.

(** ** The monad of client methods *)

Inductive Res (A : Type) :=
| Ret (a : A)
| Raise (e : Exc).
Arguments Ret {A} a.
Arguments Raise {A} e.

Definition M (A : Type) : Type := StompClient -> Res A * StompClient.

#[global] Instance M_ret : MRet M := fun A a st => (Ret a, st).

#[global] Instance M_bind : MBind M := fun A B f m st =>
  match m st with
  | (Ret a, st') => f a st'
  | (Raise e, st') => (Raise e, st')
  end.

Definition raise {A} (e : Exc) : M A := fun st => (Raise e, st).
Definition gets {A} (f : StompClient -> A) : M A := fun st => (Ret (f st), st).
Definition modify (f : StompClient -> StompClient) : M unit :=
  fun st => (Ret tt, f st).
Definition pass : M unit := mret tt.

(** [try: body finally: fin] *)
Definition try_finally {A} (body : M A) (fin : M unit) : M A := fun st =>
  match body st with
  | (r, st') =>
      match fin st' with
      | (Ret _, st'') => (r, st'')
      | (Raise e, st'') => (Raise e, st'')
      end
  end.

(** A callback run by a Deferred: what it raises ends up in the Deferred's
    result, not with the caller. *)
Definition swallow {A} (m : M A) : M unit := fun st => (Ret tt, (m st).2).

Fixpoint forM_ {A} (l : list A) (f : A -> M unit) : M unit :=
  match l with
  | [] => pass
  | x :: l' => f x;; forM_ l' f
  end.

(** ** Transport, log and Deferred primitives *)

Definition transport_write (f : Frame) : M unit :=
  modify (fun c => with_transport (transport c ++ [Write f]) c).

Definition transport_loseConnection : M unit :=
  modify (fun c => with_transport (transport c ++ [LoseConnection]) c).

Definition log_record (r : LogRecord) : M unit :=
  modify (fun c => with_log (log c ++ [r]) c).

(** [defer.Deferred()] *)
Definition newDeferred : M Deferred :=
  n ← gets nextDeferred;
  modify (with_nextDeferred (S n));;
  mret {| ident := n; callbacks := [] |}.

(** Python truthiness of an optional string ([if errDest:]). *)
Definition truthy (o : option string) : bool :=
  match o with
  | Some s => negb (String.eqb s "")
  | None => false
  end.

(** [needle in haystack] on strings. *)
Fixpoint contains (needle haystack : string) : bool :=
  match haystack with
  | EmptyString => String.prefix needle ""
  | String _ rest => String.prefix needle haystack || contains needle rest
  end.

(** ** Methods for sending raw STOMP commands *)

(** [_toFrame] is the identity on frames and [_write] hands the frame to
    the transport. *)
Definition sendFrame (message : Frame) : M unit :=
  transport_write message.

Definition send (dest msg : string) (h : option Headers) : M unit :=
  sendFrame (commands.send dest msg h).

Definition _connect (login passcode : string) : M unit :=
  sendFrame (commands.connect login passcode).

Definition _disconnect : M unit :=
  sendFrame commands.disconnect;;
  transport_loseConnection;;
  err ← gets _disconnectError;
  match err with
  | None =>
      (* list(self._session.replay()): forget subscriptions *)
      modify (fun c => with_session (StompSession.replay (_session c)).2 c)
  | Some _ => pass
  end.

Definition _ack (messageId : string) : M unit :=
  sendFrame (commands.ack {[ StompSpec.MESSAGE_ID_HEADER := messageId ]}).

(** ** Deferreds that carry callbacks *)

Definition run_callback (cb : Callback) : M unit :=
  match cb with
  | CallDisconnect => swallow _disconnect
  end.

(** [d.callback(self)] / [d.errback(err)] on a pending Deferred. *)
Definition fire (d : Deferred) (o : Outcome) : M unit :=
  modify (fun c => with_fired (fired c ++ [(ident d, o)]) c);;
  forM_ (callbacks d) run_callback.

Inductive MaybeDeferred :=
| Unfired (d : Deferred)
| Succeeded
| Failed (e : Exc).

(** [defer.maybeDeferred(f)] for an [f] that returns a Deferred or [None]. *)
Definition maybeDeferred (f : M (option Deferred)) : M MaybeDeferred :=
  fun st =>
    match f st with
    | (Ret (Some d), st') => (Ret (Unfired d), st')
    | (Ret None, st') => (Ret Succeeded, st')
    | (Raise e, st') => (Ret (Failed e), st')
    end.

(** ** Private helper methods *)

Definition _cancelConnectTimeout : M unit :=
  call ← gets _connectTimeoutDelayedCall;
  match call with
  | None => pass
  | Some _ => modify (with_connectTimeoutDelayedCall None)
  end.

Definition _handleConnectionLostDisconnect : M unit :=
  slot ← gets _disconnectedDeferred;
  match slot with
  | None => pass
  | Some d =>
      disconnecting ← gets _disconnecting;
      (if disconnecting : bool then pass
       else modify (with_disconnectError (Some StompConnectionError)));;
      err ← gets _disconnectError;
      match err with
      | Some e =>
          fire d (Failure e);;
          modify (with_disconnectError None)
      | None => fire d Success
      end;;
      modify (with_disconnectedDeferred None)
  end.

Definition _handleConnectionLostConnect : M unit :=
  slot ← gets _connectedDeferred;
  match slot with
  | None => pass
  | Some d =>
      err ← gets _connectError;
      error ← match err with
              | Some e => modify (with_connectError None);; mret e
              | None =>
                  log_record ErrorLostBeforeConnected;;
                  mret StompConnectionError
              end;
      fire d (Failure error);;
      modify (with_connectedDeferred None)
  end.

Definition _handlersInProgress : M bool :=
  active ← gets _activeHandlers;
  mret (bool_decide (active ≠ ∅)).

Definition _finishHandlers : M (option Deferred) :=
  busy ← _handlersInProgress;
  if busy : bool then
    d ← newDeferred;
    modify (with_finishedHandlersDeferred (Some d));;
    mret (Some d)
  else mret None.

Definition _handlerFinished (messageId : string) : M unit :=
  active ← gets _activeHandlers;
  if decide (messageId ∈ active) then
    modify (with_activeHandlers (active ∖ {[ messageId ]}))
  else raise (KeyError messageId).

Definition _handlerStarted (messageId : string) : M unit :=
  active ← gets _activeHandlers;
  if decide (messageId ∈ active) then
    raise (StompProtocolError (DuplicateMessage messageId))
  else modify (with_activeHandlers ({[ messageId ]} ∪ active)).

(** ** User interface *)

Definition connect (login passcode : string) (timeout : option Z) : M Deferred :=
  match timeout with
  | Some t => modify (with_connectTimeoutDelayedCall (Some t))
  | None => pass
  end;;
  _connect login passcode;;
  d ← newDeferred;
  modify (with_connectedDeferred (Some d));;
  mret d.

(** [maybeDeferred(self._finishHandlers).addBoth(lambda _: self._disconnect())]:
    a Deferred that has fired runs the callback at once; the pending one is
    the very object in [_finishedHandlersDeferred], which gets the callback. *)
Definition disconnect (failure : option Exc) : M (option Deferred) :=
  match failure with
  | Some e => modify (with_disconnectError (Some e))
  | None => pass
  end;;
  disconnecting ← gets _disconnecting;
  (if disconnecting : bool then pass
   else
     modify (with_disconnecting true);;
     r ← maybeDeferred _finishHandlers;
     match r with
     | Unfired d =>
         modify (with_finishedHandlersDeferred
                   (Some {| ident := ident d;
                            callbacks := callbacks d ++ [CallDisconnect] |}))
     | Succeeded | Failed _ => run_callback CallDisconnect
     end);;
  gets _disconnectedDeferred.

Definition CLIENT_ACK_MODES : gset string := {[ "client"; "client-individual" ]}.
Definition DEFAULT_ACK_MODE : string := "client".

Definition subscribe (dest : string) (h : Handler) (hdrs : option Headers)
    (kwargs : gmap string string) : M Token :=
  let errorDestination := kwargs !! "errorDestination" in
  s ← gets _session;
  let '(frame, s') :=
    StompSession.subscribe dest hdrs {| ctx_handler := h; ctx_kwargs := kwargs |} s in
  modify (with_session s');;
  (* ack = headers.setdefault(ACK_HEADER, DEFAULT_ACK_MODE) *)
  let ackMode := default DEFAULT_ACK_MODE (headers frame !! StompSpec.ACK_HEADER) in
  let frame' := {| cmd := cmd frame;
                   headers := <[ StompSpec.ACK_HEADER := ackMode ]> (headers frame);
                   body := body frame |} in
  match StompSession.token (headers frame'),
        headers frame' !! StompSpec.DESTINATION_HEADER with
  | Some token, Some d =>
      modify (fun c => with_subscriptions
                (<[ token := {| destination := d; handler := h; ack := ackMode;
                                errorDestination := errorDestination |} ]>
                   (_subscriptions c)) c);;
      sendFrame frame';;
      mret token
  | _, _ => raise (KeyError StompSpec.DESTINATION_HEADER)
  end.

Definition unsubscribe (subscription : Token) : M unit :=
  s ← gets _session;
  match StompSession.unsubscribe subscription s with
  | inl e => raise e
  | inr (frame, s') =>
      modify (with_session s');;
      match StompSession.token (headers frame) with
      | None => raise (KeyError StompSpec.DESTINATION_HEADER)
      | Some token =>
          subs ← gets _subscriptions;
          match subs !! token with
          | None => log_record (WarnCannotUnsubscribe token)
          | Some _ =>
              modify (with_subscriptions (delete token subs));;
              sendFrame frame
          end
      end
  end.

(** ** Handlers of incoming frames *)

Definition _messageHandlerFailed (failure : Exc) (messageId : string)
    (msg : Frame) (errDest : option string) : M unit :=
  log_record (ErrorInMessageHandler failure);;
  always ← gets _alwaysDisconnectOnUnhandledMsg;
  if truthy errDest then
    let errorMessage := _cloneStompMessage msg in
    send (default "" errDest) (body errorMessage) (Some (headers errorMessage));;
    _ack messageId;;
    if negb always then pass
    else disconnect (Some failure);; pass
  else disconnect (Some failure);; pass.

Definition _connectTimeout (timeout : Z) : M unit :=
  log_record (ErrorConnectTimedOut timeout);;
  modify (with_connectTimeoutDelayedCall None);;
  modify (with_connectError (Some (StompConnectTimeout timeout)));;
  transport_loseConnection.

Definition _replay : M unit :=
  s ← gets _session;
  let '(entries, s') := StompSession.replay s in
  modify (with_session s');;
  forM_ entries (fun '(dest, hdrs, context) =>
    subscribe dest (ctx_handler context) (Some hdrs) (ctx_kwargs context);; pass).

Definition _handleConnected (msg : Frame) : M unit :=
  _cancelConnectTimeout;;
  d ← newDeferred;
  modify (with_disconnectedDeferred (Some d));;
  _replay;;
  slot ← gets _connectedDeferred;
  match slot with
  | None => raise AttributeError
  | Some cd => fire cd Success
  end;;
  modify (with_connectedDeferred None).

Definition _isClientAck (subscription : Subscription) : bool :=
  bool_decide (ack subscription ∈ CLIENT_ACK_MODES).

Definition _finish : M unit :=
  slot ← gets _finishedHandlersDeferred;
  busy ← _handlersInProgress;
  match slot with
  | None => pass
  | Some d =>
      if busy : bool then pass
      else
        fire d Success;;
        modify (with_finishedHandlersDeferred None)
  end.

Definition _postProcessMessage (messageId : string) : M unit :=
  _handlerFinished messageId;;
  _finish.

(** The generator of [_handleMessage] from its [yield] on: the Deferred of
    the handler has fired with [outcome]. *)
Definition _handleMessage_resume (k : Continuation) (outcome : Outcome) : M unit :=
  try_finally
    match outcome with
    | Failure e =>
        _messageHandlerFailed e (k_messageId k) (k_msg k)
          (errorDestination (k_subscription k))
    | Success =>
        if _isClientAck (k_subscription k) then _ack (k_messageId k) else pass
    end
    (_postProcessMessage (k_messageId k)).

(** Whether the generator ran to its end or is parked at its [yield]. *)
Inductive Progress :=
| Finished
| Parked.

(** The body of [_handleMessage], up to the first point where it has to
    wait. *)
Definition _handleMessage_gen (msg : Frame) : M Progress :=
  let hdrs := headers msg in
  match hdrs !! StompSpec.MESSAGE_ID_HEADER with
  | None => raise (KeyError StompSpec.MESSAGE_ID_HEADER)
  | Some messageId =>
      subs ← gets _subscriptions;
      match StompSession.token hdrs ≫= (fun token => subs !! token) with
      | None =>
          log_record (WarnNoHandlerFound messageId hdrs);;
          mret Finished
      | Some subscription =>
          disconnecting ← gets _disconnecting;
          if disconnecting : bool then mret Finished
          else
            _handlerStarted messageId;;
            let k := {| k_messageId := messageId; k_msg := msg;
                        k_subscription := subscription |} in
            match handler subscription msg with
            | Defers =>
                modify (fun c => with_suspended (suspended c ++ [k]) c);;
                mret Parked
            | Returns => _handleMessage_resume k Success;; mret Finished
            | Raises e => _handleMessage_resume k (Failure e);; mret Finished
            end
      end
  end.

(** The state of the Deferred that [defer.inlineCallbacks] returns. *)
Inductive DeferredResult :=
| Fired
| Errored (e : Exc)
| Waiting.

(** [@defer.inlineCallbacks]: what the generator raises becomes the failure
    of the returned Deferred. *)
Definition inlineCallbacks (gen : M Progress) : M DeferredResult := fun st =>
  match gen st with
  | (Ret Finished, st') => (Ret Fired, st')
  | (Ret Parked, st') => (Ret Waiting, st')
  | (Raise e, st') => (Ret (Errored e), st')
  end.

Definition _handleMessage (msg : Frame) : M DeferredResult :=
  inlineCallbacks (_handleMessage_gen msg).

Definition UNEXPECTED_ACK : string := "Unexpected ACK received for message-id".

Definition _handleError (msg : Frame) : M unit :=
  log_record (InfoReceivedError msg);;
  slot ← gets _connectedDeferred;
  match slot with
  | Some _ =>
      transport_loseConnection;;
      modify (with_connectError
                (Some (StompProtocolError (ErrorWhileConnecting msg))))
  | None =>
      if contains UNEXPECTED_ACK (default "" (headers msg !! "message")) then pass
      else
        modify (with_disconnectError
                  (Some (StompProtocolError (ErrorReceived msg))));;
        disconnect None;; pass
  end.

Definition _handleReceipt (msg : Frame) : M unit :=
  log_record (InfoReceivedReceipt msg).

(** ** Methods overridden from the parent protocol class *)

Inductive Reason :=
| ConnectionLost
| ConnectionDone
| OtherReason (message : string).

Definition connectionLost (reason : Reason) : M unit :=
  _cancelConnectTimeout;;
  _handleConnectionLostConnect;;
  _handleConnectionLostDisconnect.

(** [self._handlers[message['cmd']]] followed by the call. *)
Definition dispatch (message : Frame) : M unit :=
  if String.eqb (cmd message) "MESSAGE" then _handleMessage message;; pass
  else if String.eqb (cmd message) "CONNECTED" then _handleConnected message
  else if String.eqb (cmd message) "ERROR" then _handleError message
  else if String.eqb (cmd message) "RECEIPT" then _handleReceipt message
  else raise (StompFrameError message).

(** [dataReceived], on the frames the parser yields for the data. *)
Definition dataReceived (messages : list Frame) : M unit :=
  forM_ messages dispatch.

(** ** Events *)

Fixpoint take_continuation (messageId : string) (l : list Continuation)
    : option (Continuation * list Continuation) :=
  match l with
  | [] => None
  | k :: l' =>
      if String.eqb (k_messageId k) messageId then Some (k, l')
      else
        match take_continuation messageId l' with
        | Some (k', rest) => Some (k', k :: rest)
        | None => None
        end
  end.

(** The Deferred of the handler of [messageId] fires: the parked generator
    is resumed inside its [inlineCallbacks] wrapper. *)
Definition handlerFired (messageId : string) (outcome : Outcome) : M DeferredResult :=
  parked ← gets suspended;
  match take_continuation messageId parked with
  | None => mret Waiting
  | Some (k, rest) =>
      modify (with_suspended rest);;
      inlineCallbacks (_handleMessage_resume k outcome;; mret Finished)
  end.

(** The reactor runs the delayed call that [_connectTimeoutDelayedCall]
    refers to, if there is one: [_cancelConnectTimeout] cancels that call
    and clears the slot, [_connectTimeout] clears it when it runs.  A
    delayed call whose handle a second [connect] has overwritten is out of
    the client's reach and is not represented. *)
Definition timeoutFired : M unit :=
  call ← gets _connectTimeoutDelayedCall;
  match call with
  | None => pass
  | Some timeout => _connectTimeout timeout
  end.

Inductive Event :=
| EConnect (login passcode : string) (timeout : option Z)
| EDisconnect (failure : option Exc)
| ESubscribe (dest : string) (h : Handler) (hdrs : option Headers)
             (kwargs : gmap string string)
| EUnsubscribe (subscription : Token)
| ESend (dest msg : string) (hdrs : option Headers)
| EDataReceived (messages : list Frame)
| EConnectionLost (reason : Reason)
| ETimeoutFired
| EHandlerFired (messageId : string) (outcome : Outcome).

Definition exec {A} (m : M A) (st : StompClient) : StompClient := (m st).2.

Definition step (e : Event) (st : StompClient) : StompClient :=
  match e with
  | EConnect login passcode timeout => exec (connect login passcode timeout) st
  | EDisconnect failure => exec (disconnect failure) st
  | ESubscribe dest h hdrs kwargs => exec (subscribe dest h hdrs kwargs) st
  | EUnsubscribe subscription => exec (unsubscribe subscription) st
  | ESend dest msg hdrs => exec (send dest msg hdrs) st
  | EDataReceived messages => exec (dataReceived messages) st
  | EConnectionLost reason => exec (connectionLost reason) st
  | ETimeoutFired => exec timeoutFired st
  | EHandlerFired messageId outcome => exec (handlerFired messageId outcome) st
  end.

Definition run (es : list Event) (st : StompClient) : StompClient :=
  foldl (fun st e => step e st) st es.

(** ** Observations on a state *)

Definition is_cmd (name : string) (c : TransportCall) : bool :=
  match c with
  | Write f => String.eqb (cmd f) name
  | LoseConnection => false
  end.

(** The frames of one command written so far, in wire order. *)
Definition written (name : string) (st : StompClient) : list TransportCall :=
  List.filter (is_cmd name) (transport st).

Definition acks := written "ACK".
Definition sends := written "SEND".
Definition disconnects (st : StompClient) : nat :=
  length (written "DISCONNECT" st).

(** How the Deferred [d] has been resolved so far. *)
Definition resolved (d : Deferred) (st : StompClient) : list Outcome :=
  map snd (List.filter (fun p => Nat.eqb p.1 (ident d)) (fired st)).

Definition ackFrame (messageId : string) : Frame :=
  commands.ack {[ StompSpec.MESSAGE_ID_HEADER := messageId ]}.

(** The subscription a MESSAGE frame is matched with, if any. *)
Definition matching (msg : Frame) (st : StompClient) : option Subscription :=
  StompSession.token (headers msg) ≫= (fun token => _subscriptions st !! token).

(** The Deferreds handed to the caller carry none of the client's own
    callbacks. *)
Definition plain (slot : option Deferred) : Prop :=
  match slot with
  | Some d => callbacks d = []
  | None => True
  end.

Definition user_deferreds_plain (st : StompClient) : Prop :=
  plain (_connectedDeferred st) /\ plain (_disconnectedDeferred st).

Definition is_connected (f : Frame) : bool := String.eqb (cmd f) "CONNECTED".

Definition delivers_connected (e : Event) : bool :=
  match e with
  | EDataReceived messages => existsb is_connected messages
  | _ => false
  end.

Definition fired_ids (es : list Event) : gset string :=
  foldr (fun e acc =>
           match e with
           | EHandlerFired messageId _ => {[ messageId ]} ∪ acc
           | _ => acc
           end) ∅ es.

(** [m] preserves the state property [P], whether it returns or raises. *)
Definition keeps {A} (P : StompClient -> Prop) (m : M A) : Prop :=
  forall st, P st -> P (m st).2.

Definition no_disconnected_deferred (st : StompClient) : Prop :=
  _disconnectedDeferred st = None.

(** [f] has the value [x]. *)
Definition unchanged {A} (f : StompClient -> A) (x : A) (st : StompClient) : Prop :=
  f st = x.

(** The handler of a dispatched MESSAGE with message-id [messageId], matched
    with [sub], completes with [outcome], taking the client from [st] to
    [st']: either at once, within the dispatch of the frame, or later, when
    the Deferred it had handed back fires. *)
Definition handler_completes (outcome : Outcome) (msg : Frame) (messageId : string)
    (sub : Subscription) (st st' : StompClient) : Prop :=
  (headers msg !! StompSpec.MESSAGE_ID_HEADER = Some messageId /\
   matching msg st = Some sub /\
   _disconnecting st = false /\
   (messageId ∉ _activeHandlers st) /\
   handler sub msg = match outcome with Success => Returns | Failure e => Raises e end /\
   st' = exec (_handleMessage msg) st)
  \/
  (exists rest,
     take_continuation messageId (suspended st) =
       Some ({| k_messageId := messageId; k_msg := msg; k_subscription := sub |}, rest) /\
     st' = exec (handlerFired messageId outcome) st).

(** The invariant of a drain that started when [n0] DISCONNECT frames had
    been written and the handlers of [A] were active, after the handlers of
    [F] have been resumed: the client is disconnecting, the handlers of [A]
    not yet resumed are still active, and a DISCONNECT frame written since
    then finds no handler active. *)
Definition draining (n0 : nat) (A F : gset string) (st : StompClient) : Prop :=
  _disconnecting st = true /\
  user_deferreds_plain st /\
  A ∖ F ⊆ _activeHandlers st /\
  (n0 < disconnects st -> _activeHandlers st = ∅).

(** ** A session used in the examples *)

Module Example.
Definition client0 : StompClient := __init__ None false.

Definition connectedFrame : Frame :=
  {| cmd := "CONNECTED"; headers := {[ "session" := "ID:broker-1" ]}; body := "" |}.

Definition receiptFrame : Frame :=
  {| cmd := "RECEIPT"; headers := {[ "receipt-id" := "r1" ]}; body := "" |}.

(** A MESSAGE of the subscription [("/queue/a", "0")]. *)
Definition messageFrame (messageId text : string) : Frame :=
  {| cmd := "MESSAGE";
     headers := {[ "message-id" := messageId; "destination" := "/queue/a";
                   "id" := "0" ]};
     body := text |}.

(** A MESSAGE no subscription is registered for. *)
Definition strayFrame : Frame :=
  {| cmd := "MESSAGE";
     headers := {[ "message-id" := "m9"; "destination" := "/queue/z"; "id" := "7" ]};
     body := "ok" |}.

(** Returns on "ok", raises on "bad", hands back a Deferred otherwise. *)
Definition worker : Handler := fun msg =>
  if String.eqb (body msg) "ok" then Returns
  else if String.eqb (body msg) "bad" then Raises (HandlerError "boom")
  else Defers.

Definition tokenA : Token := ("/queue/a", "0").

Definition subscriptionA (errDest : option string) : Subscription :=
  {| destination := "/queue/a"; handler := worker; ack := "client";
     errorDestination := errDest |}.

Definition d0 : Deferred := {| ident := 0; callbacks := [] |}.

(** connect with a timeout of 5 seconds *)
Definition connecting : StompClient :=
  run [EConnect "user" "secret" (Some 5%Z)] client0.

(** connected and subscribed to /queue/a *)
Definition subscribed : StompClient :=
  run [EConnect "user" "secret" None; EDataReceived [connectedFrame];
       ESubscribe "/queue/a" worker None ∅] client0.

(** the same, with an error destination *)
Definition subscribedErr : StompClient :=
  run [EConnect "user" "secret" None; EDataReceived [connectedFrame];
       ESubscribe "/queue/a" worker None {[ "errorDestination" := "/queue/err" ]}]
    client0.

(** one message in a handler that has not completed *)
Definition working : StompClient :=
  run [EDataReceived [messageFrame "m1" "slow"]] subscribed.

Definition workingErr : StompClient :=
  run [EDataReceived [messageFrame "m1" "slow"]] subscribedErr.

(** the same, after [disconnect(failure)] *)
Definition drainingAfter (failure : Exc) : StompClient :=
  run [EDisconnect (Some failure)] working.

Definition neverConnected : list Event :=
  [EConnect "user" "secret" (Some 5%Z); EDataReceived [receiptFrame];
   ETimeoutFired; EConnectionLost ConnectionDone].
End Example.

(** ** Further observations *)

Definition KNOWN_COMMANDS : list string := ["MESSAGE"; "CONNECTED"; "ERROR"; "RECEIPT"].

(** What the handlers in flight look like: the active-handlers set holds
    the message-ids of the parked generators, each once. *)
Definition inflight (st : StompClient) : Prop :=
  _activeHandlers st = list_to_set (map k_messageId (suspended st)) /\
  NoDup (map k_messageId (suspended st)).

(** The client is disconnecting and no handler outside [A] is active. *)
Definition winding_down (A : gset string) (st : StompClient) : Prop :=
  _disconnecting st = true /\ _activeHandlers st ⊆ A.

(** The DISCONNECT frames still to come from the drain Deferred. *)
Definition pending_disconnects (st : StompClient) : nat :=
  match _finishedHandlersDeferred st with
  | Some d => length (callbacks d)
  | None => 0
  end.

(** At most one DISCONNECT frame, written or still to come, and none of
    either before [disconnect] was called. *)
Definition single_disconnect (st : StompClient) : Prop :=
  user_deferreds_plain st /\
  disconnects st + pending_disconnects st <= 1 /\
  (_disconnecting st = false -> disconnects st + pending_disconnects st = 0).

(** Every Deferred that has fired was created before. *)
Definition fired_below_next (st : StompClient) : Prop :=
  Forall (fun p : nat * Outcome => p.1 < nextDeferred st) (fired st).

(** ** More of the example session *)

Module Example2.
Definition bogusFrame : Frame :=
  {| cmd := "BOGUS"; headers := ∅; body := "" |}.

Definition errorFrame : Frame :=
  {| cmd := "ERROR"; headers := {[ "message" := "Broker is going down" ]}; body := "" |}.

Definition unexpectedAckFrame : Frame :=
  {| cmd := "ERROR";
     headers := {[ "message" := "Unexpected ACK received for message-id [m7]" ]};
     body := "" |}.

Definition d1 : Deferred := {| ident := 1; callbacks := [] |}.

Definition drainDeferred : Deferred := {| ident := 2; callbacks := [CallDisconnect] |}.

(** connect without a timeout, not yet connected *)
Definition waiting : StompClient :=
  run [EConnect "user" "secret" None] Example.client0.

(** connected, nothing subscribed *)
Definition connected : StompClient :=
  run [EDataReceived [Example.connectedFrame]] waiting.

(** connected with always-disconnect on and an error destination *)
Definition subscribedAlways : StompClient :=
  run [EConnect "user" "secret" None; EDataReceived [Example.connectedFrame];
       ESubscribe "/queue/a" Example.worker None
         {[ "errorDestination" := "/queue/err" ]}]
    (__init__ None true).

Definition parkedM1 : Continuation :=
  {| k_messageId := "m1"; k_msg := Example.messageFrame "m1" "slow";
     k_subscription := Example.subscriptionA None |}.
End Example2.

(** ** Between the connect timeout and the loss of the connection *)

(** A frame other than CONNECTED and ERROR. *)
Definition quiet_frame (f : Frame) : bool :=
  negb (String.eqb (cmd f) "CONNECTED") && negb (String.eqb (cmd f) "ERROR").

(** An event that is neither a call of [connect], nor the loss of the
    connection, nor the arrival of a CONNECTED or an ERROR frame. *)
Definition quiet (e : Event) : bool :=
  match e with
  | EConnect _ _ _ => false
  | EConnectionLost _ => false
  | EDataReceived messages => forallb quiet_frame messages
  | _ => true
  end.

(** The slot does not hold the Deferred [d]. *)
Definition elsewhere (d : Deferred) (slot : option Deferred) : Prop :=
  match slot with
  | Some x => ident x <> ident d
  | None => True
  end.

(** [d] was created earlier and has been resolved as [outcomes]; neither
    the "disconnected" Deferred nor the drain Deferred is [d]. *)
Definition aside (d : Deferred) (outcomes : list Outcome) (st : StompClient) : Prop :=
  elsewhere d (_disconnectedDeferred st) /\
  elsewhere d (_finishedHandlersDeferred st) /\
  ident d < nextDeferred st /\
  resolved d st = outcomes.

(** What the connect phase has left in the client. *)
Definition connect_side (st : StompClient)
    : option Deferred * option Exc * option Z * option Deferred :=
  (_connectedDeferred st, _connectError st, _connectTimeoutDelayedCall st,
   _disconnectedDeferred st).

(** The connect [d] is pending with the error [e] on record and no
    timeout scheduled. *)
Definition connect_failed (d : Deferred) (e : Exc) (st : StompClient) : Prop :=
  _connectedDeferred st = Some d /\
  _connectError st = Some e /\
  _connectTimeoutDelayedCall st = None /\
  user_deferreds_plain st.

Definition timed_out (d : Deferred) (e : Exc) (st : StompClient) : Prop :=
  aside d [] st /\ connect_failed d e st.

(** [d] has been resolved as [outcomes] and is in no slot of the client
    any more. *)
Definition settled (d : Deferred) (outcomes : list Outcome) (st : StompClient) : Prop :=
  aside d outcomes st /\ elsewhere d (_connectedDeferred st).

(** ** The Deferreds in the slots of the client *)

(** [d] is not among the Deferreds that have fired. *)
Definition unfired (d : Deferred) (l : list (nat * Outcome)) : Prop :=
  Forall (fun p : nat * Outcome => p.1 <> ident d) l.

(** The Deferred in a slot was created before the [n]-th one and has not
    fired. *)
Definition pending_in (slot : option Deferred) (l : list (nat * Outcome)) (n : nat)
    : Prop :=
  match slot with
  | Some x => ident x < n /\ unfired x l
  | None => True
  end.

(** Two slots do not hold the same Deferred. *)
Definition apart (a b : option Deferred) : Prop :=
  match a, b with
  | Some x, Some y => ident x <> ident y
  | _, _ => True
  end.

Definition slots_fresh (c dd df : option Deferred) (l : list (nat * Outcome))
    (n : nat) : Prop :=
  plain c /\ plain dd /\
  Forall (fun p : nat * Outcome => p.1 < n) l /\
  pending_in c l n /\ pending_in dd l n /\ pending_in df l n /\
  apart c dd /\ apart c df /\ apart dd df /\
  NoDup (map fst l).

(** The three slots hold pending Deferreds, no two of them the same; those
    handed to the caller carry no callbacks of the client; every Deferred
    that has fired was created before and has fired once. *)
Definition fresh (st : StompClient) : Prop :=
  slots_fresh (_connectedDeferred st) (_disconnectedDeferred st)
    (_finishedHandlersDeferred st) (fired st) (nextDeferred st).

(** * Properties *)

(** ** The monad *)

Lemma bind_ret {A B} (m : M A) (f : A -> M B) st a st' :
  m st = (Ret a, st') -> (m ≫= f) st = f a st'.
Proof. intros H. unfold mbind, M_bind. now rewrite H. Qed.

Lemma bind_raise {A B} (m : M A) (f : A -> M B) st e st' :
  m st = (Raise e, st') -> (m ≫= f) st = (Raise e, st').
Proof. intros H. unfold mbind, M_bind. now rewrite H. Qed.

Lemma bind_gets {A B} (f : StompClient -> A) (k : A -> M B) st :
  (gets f ≫= k) st = k (f st) st.
Proof. reflexivity. Qed.

Lemma bind_modify {B} f (k : unit -> M B) st :
  (modify f ≫= k) st = k tt (f st).
Proof. reflexivity. Qed.

Lemma bind_mret {A B} (a : A) (k : A -> M B) st : (mret a ≫= k) st = k a st.
Proof. reflexivity. Qed.

Lemma bind_pass {B} (k : unit -> M B) st : (pass ≫= k) st = k tt st.
Proof. reflexivity. Qed.

Lemma bind_raised {A B} e (k : A -> M B) st : (raise e ≫= k) st = (Raise e, st).
Proof. reflexivity. Qed.

Lemma bind_assoc {A B C} (m : M A) (f : A -> M B) (g : B -> M C) st :
  ((m ≫= f) ≫= g) st = (m ≫= fun a => f a ≫= g) st.
Proof.
  unfold mbind, M_bind. now destruct (m st) as [[a|e] st'].
Qed.

(** Runs the binds at the head of a computation applied to a state. *)
Ltac stepM :=
  repeat (rewrite ?bind_assoc, ?bind_gets, ?bind_modify, ?bind_mret,
            ?bind_pass, ?bind_raised; cbv beta).

Lemma keeps_ret {A} P (a : A) : keeps P (mret a).
Proof. now intros st H. Qed.

Lemma keeps_pass P : keeps P pass.
Proof. now intros st H. Qed.

Lemma keeps_raise {A} P e : keeps P (@raise A e).
Proof. now intros st H. Qed.

Lemma keeps_gets {A} P (f : StompClient -> A) : keeps P (gets f).
Proof. now intros st H. Qed.

Lemma keeps_bind {A B} P (m : M A) (f : A -> M B) :
  keeps P m -> (forall a, keeps P (f a)) -> keeps P (m ≫= f).
Proof.
  intros Hm Hf st H. specialize (Hm st H).
  unfold mbind, M_bind. destruct (m st) as [[a|e] st']; simpl in *.
  - now apply Hf.
  - assumption.
Qed.

(** After reading the state, the continuation may use what was read. *)
Lemma keeps_bind_gets {A B} (P : StompClient -> Prop) (f : StompClient -> A)
    (k : A -> M B) :
  (forall st, P st -> P (k (f st) st).2) -> keeps P (gets f ≫= k).
Proof. intros H st HP. now apply H. Qed.

Lemma keeps_modify (P : StompClient -> Prop) f :
  (forall st, P st -> P (f st)) -> keeps P (modify f).
Proof. intros H st HP. now apply H. Qed.

Lemma keeps_try_finally {A} P (body : M A) fin :
  keeps P body -> keeps P fin -> keeps P (try_finally body fin).
Proof.
  intros Hb Hf st H. specialize (Hb st H). unfold try_finally.
  destruct (body st) as [r st']; simpl in *. specialize (Hf st' Hb).
  destruct (fin st') as [[[]|e] st'']; simpl in *; assumption.
Qed.

Lemma keeps_swallow {A} P (m : M A) : keeps P m -> keeps P (swallow m).
Proof. intros Hm st H. now apply Hm. Qed.

Lemma keeps_forM_ {A} P (l : list A) (f : A -> M unit) :
  (forall x, keeps P (f x)) -> keeps P (forM_ l f).
Proof.
  intros Hf. induction l as [|x l IH]; simpl.
  - apply keeps_pass.
  - apply keeps_bind; [apply Hf | intros _; apply IH].
Qed.

Lemma keeps_inlineCallbacks P gen : keeps P gen -> keeps P (inlineCallbacks gen).
Proof.
  intros Hg st H. specialize (Hg st H). unfold inlineCallbacks.
  destruct (gen st) as [[[]|e] st']; simpl in *; assumption.
Qed.

Lemma keeps_maybeDeferred P f : keeps P f -> keeps P (maybeDeferred f).
Proof.
  intros Hf st H. specialize (Hf st H). unfold maybeDeferred.
  destruct (f st) as [[[d|]|e] st']; simpl in *; assumption.
Qed.

Lemma exec_try_finally {A} (body : M A) fin st :
  exec (try_finally body fin) st = exec fin (exec body st).
Proof.
  unfold exec, try_finally. destruct (body st) as [r st']; simpl.
  now destruct (fin st') as [[[]|e] st''].
Qed.

(** A fresh Deferred is bound: it carries no callbacks. *)
Lemma keeps_bind_newDeferred {B} (P : StompClient -> Prop) (k : Deferred -> M B) :
  (forall n, keeps P (modify (with_nextDeferred (S n)))) ->
  (forall n, keeps P (k {| ident := n; callbacks := [] |})) ->
  keeps P (newDeferred ≫= k).
Proof.
  intros Hn Hk st H. unfold newDeferred. rewrite bind_assoc, bind_gets, bind_assoc,
    bind_modify, bind_mret.
  apply Hk. now apply (Hn _ st).
Qed.

Lemma keeps_intro {A} (P : StompClient -> Prop) (m : M A) :
  (forall st, P st -> P (m st).2) -> keeps P m.
Proof. exact (fun H => H). Qed.

Lemma keeps_elim {A} (P : StompClient -> Prop) (m : M A) st :
  keeps P m -> P st -> P (exec m st).
Proof. intros H HP. now apply H. Qed.

#[global] Opaque keeps.

(** Breaks a method down along its binds and branches; what is left are the
    state updates and the calls of other methods. *)
Ltac keeps_split :=
  repeat
    match goal with
    | |- keeps _ pass => apply keeps_pass
    | |- keeps _ (mret _) => apply keeps_ret
    | |- keeps _ (raise _) => apply keeps_raise
    | |- keeps _ (gets _) => apply keeps_gets
    | |- keeps _ (mbind _ newDeferred) => apply keeps_bind_newDeferred; intros ?
    | |- keeps _ (mbind _ _) => apply keeps_bind; [| intros ?]
    | |- keeps _ (try_finally _ _) => apply keeps_try_finally
    | |- keeps _ (swallow _) => apply keeps_swallow
    | |- keeps _ (inlineCallbacks _) => apply keeps_inlineCallbacks
    | |- keeps _ (maybeDeferred _) => apply keeps_maybeDeferred
    | |- keeps _ (forM_ _ _) => apply keeps_forM_; intros ?
    | |- keeps _ (match ?x with _ => _ end) => destruct x
    end.

Ltac unfold_methods :=
  unfold handlerFired, timeoutFired, connectionLost, _handleReceipt,
    _handleError, _handleMessage, _handleMessage_gen, _handleMessage_resume,
    _postProcessMessage, _finish, _handleConnected, _replay, _connectTimeout,
    _messageHandlerFailed, unsubscribe, subscribe, disconnect, connect,
    _handlerStarted, _handlerFinished, _finishHandlers, _handlersInProgress,
    _handleConnectionLostConnect, _handleConnectionLostDisconnect,
    _cancelConnectTimeout, fire, run_callback, _ack, _disconnect, _connect,
    send, sendFrame, log_record, transport_loseConnection, transport_write;
  cbv zeta.

(** Settles [keeps P m] for a method [m] all of whose state updates keep
    [P]; [leaf] proves [P (f st)] from [P st] for each update [f]. *)
Ltac keeps_all leaf :=
  unfold_methods; keeps_split;
  apply keeps_modify; intros ? ?; leaf.

(** ** No "disconnected" Deferred before CONNECTED *)


Ltac leaf_projection := simpl in *; first [assumption | reflexivity | congruence].


Lemma keeps_forM_Forall {A} P (l : list A) (f : A -> M unit) :
  Forall (fun x => keeps P (f x)) l -> keeps P (forM_ l f).
Proof.
  induction 1 as [|x l Hx _ IH]; simpl.
  - apply keeps_pass.
  - apply keeps_bind; [exact Hx | intros _; exact IH].
Qed.

Lemma dispatch_keeps_no_disconnected_deferred message :
  is_connected message = false ->
  keeps no_disconnected_deferred (dispatch message).
Proof.
  intros H. unfold dispatch, is_connected in *. rewrite H.
  destruct (cmd message =? "MESSAGE")%string;
    [| destruct (cmd message =? "ERROR")%string;
       [| destruct (cmd message =? "RECEIPT")%string ] ];
    unfold no_disconnected_deferred; keeps_all leaf_projection.
Qed.

Lemma step_keeps_no_disconnected_deferred e st :
  delivers_connected e = false ->
  no_disconnected_deferred st -> no_disconnected_deferred (step e st).
Proof.
  intros He. destruct e; simpl; apply keeps_elim;
    try (unfold no_disconnected_deferred; keeps_all leaf_projection).
  unfold dataReceived. apply keeps_forM_Forall.
  simpl in He. induction messages as [|m ms IH]; constructor.
  - apply dispatch_keeps_no_disconnected_deferred.
    simpl in He. now destruct (is_connected m).
  - apply IH. simpl in He. now destruct (is_connected m).
Qed.

Lemma run_keeps_no_disconnected_deferred es st :
  existsb delivers_connected es = false ->
  no_disconnected_deferred st -> no_disconnected_deferred (run es st).
Proof.
  revert st. induction es as [|e es IH]; intros st Hes Hst; simpl in *.
  - assumption.
  - apply orb_false_elim in Hes as [He Hes].
    apply IH; [assumption|]. now apply step_keeps_no_disconnected_deferred.
Qed.

(** [disconnect] never raises and hands back whatever is in
    [_disconnectedDeferred] when it is done. *)
Lemma disconnect_returns_slot failure st :
  (disconnect failure st).1 =
    Ret (_disconnectedDeferred (exec (disconnect failure) st)).
Proof.
  unfold exec, disconnect.
  destruct failure as [e|]; unfold_methods;
    unfold maybeDeferred, swallow, mbind, M_bind, modify, gets, pass, mret, M_ret;
    simpl; destruct (_disconnecting st); simpl; try reflexivity;
    destruct (bool_decide (_activeHandlers st ≠ ∅)); simpl; try reflexivity;
    destruct (_disconnectError st); reflexivity.
Qed.

(** C9. A client that has never handled a CONNECTED frame has no
    "disconnected" Deferred: whatever else happened since [__init__]
    (connect, subscriptions, other frames, timeouts, connection loss),
    [disconnect] returns [None] instead of a Deferred. *)
Theorem disconnect_before_connected_returns_None session always es failure :
  existsb delivers_connected es = false ->
  (disconnect failure (run es (__init__ session always))).1 = Ret None.
Proof.
  intros Hes. rewrite disconnect_returns_slot. f_equal.
  apply (keeps_elim no_disconnected_deferred).
  - unfold no_disconnected_deferred. keeps_all leaf_projection.
  - now apply run_keeps_no_disconnected_deferred.
Qed.

(** ** Running a method on a symbolic state *)

Ltac run_M :=
  unfold_methods;
  unfold newDeferred, exec, maybeDeferred, swallow, try_finally, inlineCallbacks, mbind,
    M_bind, modify, gets, raise, pass, mret, M_ret;
  simpl.

Lemma idle : bool_decide ((∅ : gset string) ≠ ∅) = false.
Proof. apply bool_decide_eq_false. intros H. now apply H. Qed.

Lemma busy (active : gset string) :
  active ≠ ∅ -> bool_decide (active ≠ ∅) = true.
Proof. intros H. now apply bool_decide_eq_true. Qed.

(** ** Calling [disconnect] again *)

Lemma disconnect_again st failure :
  _disconnecting st = true ->
  disconnect failure st =
    (Ret (_disconnectedDeferred st),
     match failure with
     | Some e => with_disconnectError (Some e) st
     | None => st
     end).
Proof.
  intros H. destruct failure; run_M; rewrite H; reflexivity.
Qed.

(** C7 (as the code has it). While the client is disconnecting, a further
    [disconnect(failure)] changes nothing but the recorded disconnect
    error, which a given failure replaces whether or not one was recorded;
    no drain is started and nothing is written to the transport.  It
    returns what [_disconnectedDeferred] holds, be it a Deferred or
    [None]. *)
Theorem disconnect_while_disconnecting st failure :
  _disconnecting st = true ->
  (disconnect failure st).1 = Ret (_disconnectedDeferred st) /\
  exec (disconnect failure) st =
    match failure with
    | Some e => with_disconnectError (Some e) st
    | None => st
    end.
Proof.
  intros H. unfold exec. rewrite (disconnect_again st failure H). now split.
Qed.

(** ** Forgetting subscriptions on a graceful disconnect *)

(** [_disconnect] looks at the disconnect error that is on record when it
    runs: with none it clears the Session's subscriptions, with one it
    leaves the Session as it is; so does the drain Deferred firing in
    [_finish].  Whether a cause given to [disconnect] is still on record by
    then is another matter. *)
Theorem disconnect_forgets_iff_clean st :
  (_disconnectError st = None ->
     StompSession.subscriptions (_session (exec _disconnect st)) = []) /\
  (forall e, _disconnectError st = Some e ->
     _session (exec _disconnect st) = _session st) /\
  (forall d, _finishedHandlersDeferred st = Some d ->
     callbacks d = [CallDisconnect] -> _activeHandlers st = ∅ ->
     (_disconnectError st = None ->
        StompSession.subscriptions (_session (exec _finish st)) = []) /\
     (forall e, _disconnectError st = Some e ->
        _session (exec _finish st) = _session st)).
Proof.
  split; [| split].
  - intros H. run_M. now rewrite H.
  - intros e H. run_M. now rewrite H.
  - intros d Hd Hcb Hact. split.
    + intros H. run_M. rewrite Hd, Hact, Hcb, idle. simpl. now rewrite H.
    + intros e H. run_M. rewrite Hd, Hact, Hcb, idle. simpl. now rewrite H.
Qed.

(** ** Dropped MESSAGE frames *)

(** C10. A MESSAGE frame (with its message-id header) that matches no
    registered subscription is dropped with a warning, and one that arrives
    while the client is disconnecting is dropped silently: the Deferred of
    the dispatch has fired without error and nothing but the log has
    changed, whether or not the message-id is among the active handlers.
    Hence a dispatch that fails with a [StompProtocolError] matched a
    registered subscription while the client was not disconnecting. *)
Theorem unmatched_or_late_message_dropped st msg messageId :
  headers msg !! StompSpec.MESSAGE_ID_HEADER = Some messageId ->
  (matching msg st = None ->
     _handleMessage msg st =
       (Ret Fired,
        with_log (log st ++ [WarnNoHandlerFound messageId (headers msg)]) st)) /\
  (_disconnecting st = true -> is_Some (matching msg st) ->
     _handleMessage msg st = (Ret Fired, st)) /\
  (forall what,
     (_handleMessage msg st).1 = Ret (Errored (StompProtocolError what)) ->
     is_Some (matching msg st) /\ _disconnecting st = false).
Proof.
  intros Hid. unfold matching. split; [| split].
  - intros Hm. run_M. rewrite Hid. simpl.
    unfold mbind in Hm. rewrite Hm. reflexivity.
  - intros Hd [sub Hm]. run_M. rewrite Hid. simpl.
    unfold mbind in Hm. rewrite Hm, Hd. simpl. now destruct st.
  - intros what. run_M. rewrite Hid. simpl. unfold mbind.
    destruct (option_bind _ _ _ _) as [sub|]; simpl; [| discriminate].
    destruct (_disconnecting st); simpl; [discriminate |].
    intros _. split; [eauto | reflexivity].
Qed.

(** ** One active handler per message *)

(** A frame that matches a subscription while the client is not
    disconnecting and whose message-id is active: [_handlerStarted] raises
    inside the generator, nothing is changed, and the Deferred of the
    dispatch carries the error. *)
Lemma active_message_raises st msg messageId :
  headers msg !! StompSpec.MESSAGE_ID_HEADER = Some messageId ->
  is_Some (matching msg st) ->
  _disconnecting st = false ->
  messageId ∈ _activeHandlers st ->
  _handleMessage_gen msg st =
    (Raise (StompProtocolError (DuplicateMessage messageId)), st) /\
  _handleMessage msg st =
    (Ret (Errored (StompProtocolError (DuplicateMessage messageId))), st).
Proof.
  intros Hid [sub Hm] Hd Hact. unfold matching, mbind in Hm.
  split; run_M; rewrite Hid; simpl; unfold mbind; rewrite Hm, Hd; simpl;
    (destruct (decide (messageId ∈ _activeHandlers st)); [reflexivity | contradiction]).
Qed.

Lemma parked_message_is_active st msg messageId sub :
  headers msg !! StompSpec.MESSAGE_ID_HEADER = Some messageId ->
  matching msg st = Some sub ->
  _disconnecting st = false ->
  handler sub msg = Defers ->
  let st1 := exec (_handleMessage msg) st in
  messageId ∈ _activeHandlers st1 /\
  _subscriptions st1 = _subscriptions st /\
  _disconnecting st1 = false.
Proof.
  intros Hid Hm Hd Hh. unfold matching, mbind in Hm.
  run_M. rewrite Hid. simpl. unfold mbind. rewrite Hm, Hd. simpl.
  destruct (decide (messageId ∈ _activeHandlers st)) as [Hin|Hin]; simpl.
  - auto.
  - rewrite Hh. simpl. split; [set_solver | auto].
Qed.

(** C2. Two MESSAGE frames with the same message-id, both matching a
    registered subscription while the client is not disconnecting: once the
    first has been dispatched and its handler has not completed, the
    message-id is active, and dispatching the second raises
    [StompProtocolError] (duplicate message) in [_handlerStarted]; the
    error is the failure of the Deferred of that dispatch, and the state,
    the active-handlers set included, is left as it was. *)
Theorem duplicate_message_raises st m1 m2 messageId sub1 :
  headers m1 !! StompSpec.MESSAGE_ID_HEADER = Some messageId ->
  headers m2 !! StompSpec.MESSAGE_ID_HEADER = Some messageId ->
  matching m1 st = Some sub1 ->
  is_Some (matching m2 st) ->
  _disconnecting st = false ->
  handler sub1 m1 = Defers ->
  let st1 := exec (_handleMessage m1) st in
  messageId ∈ _activeHandlers st1 /\
  _handleMessage_gen m2 st1 =
    (Raise (StompProtocolError (DuplicateMessage messageId)), st1) /\
  _handleMessage m2 st1 =
    (Ret (Errored (StompProtocolError (DuplicateMessage messageId))), st1).
Proof.
  intros Hid1 Hid2 Hm1 Hm2 Hd Hh st1.
  destruct (parked_message_is_active st m1 messageId sub1 Hid1 Hm1 Hd Hh)
    as (Hact & Hsubs & Hd1).
  fold st1 in Hact, Hsubs, Hd1. split; [assumption |].
  apply active_message_raises; try assumption.
  unfold matching in *. now rewrite Hsubs.
Qed.

(** ** Unsubscribing *)

Lemma token_of_unsubscribe tok :
  StompSession.token (headers (commands.unsubscribe tok)) = Some tok.
Proof.
  destruct tok as [d i]. unfold StompSession.token, commands.unsubscribe. simpl.
  rewrite lookup_insert_eq, lookup_insert_ne by discriminate.
  now rewrite lookup_singleton_eq.
Qed.

(** For a token that the Session records: when the local registry has no
    entry for it, [unsubscribe] returns without raising, logs a warning and
    writes nothing to the transport; when the local registry has one, the
    entry is removed and the UNSUBSCRIBE frame is written.  In both cases
    the Session drops its record. *)
Theorem unsubscribe_recorded_token st tok entry :
  StompSession.get tok (StompSession.subscriptions (_session st)) = Some entry ->
  let s' := {| StompSession.subscriptions :=
                 StompSession.remove tok (StompSession.subscriptions (_session st));
               StompSession.nextSubscription :=
                 StompSession.nextSubscription (_session st) |} in
  (_subscriptions st !! tok = None ->
     unsubscribe tok st =
       (Ret tt, with_log (log st ++ [WarnCannotUnsubscribe tok]) (with_session s' st))) /\
  (is_Some (_subscriptions st !! tok) ->
     unsubscribe tok st =
       (Ret tt,
        with_transport (transport st ++ [Write (commands.unsubscribe tok)])
          (with_subscriptions (delete tok (_subscriptions st))
             (with_session s' st)))).
Proof.
  intros Hget s'. split.
  - intros Hnone. unfold unsubscribe, StompSession.unsubscribe.
    unfold mbind at 1, M_bind, gets. rewrite Hget, token_of_unsubscribe.
    run_M. now rewrite Hnone.
  - intros [sub Hsome]. unfold unsubscribe, StompSession.unsubscribe.
    unfold mbind at 1, M_bind, gets. rewrite Hget, token_of_unsubscribe.
    run_M. now rewrite Hsome.
Qed.

(** ** Completion of a handler *)

Ltac leaf_written :=
  unfold unchanged, acks, sends, disconnects, written in *; simpl in *;
  rewrite ?List.filter_app; simpl; rewrite ?app_nil_r;
  first [assumption | reflexivity | congruence].

Lemma postProcess_keeps_written name (Hname : name <> "DISCONNECT") x messageId :
  keeps (unchanged (written name) x) (_postProcessMessage messageId).
Proof.
  assert (Hn : String.eqb "DISCONNECT" name = false).
  { apply String.eqb_neq. congruence. }
  unfold_methods; keeps_split; apply keeps_modify; intros ? ?;
    unfold unchanged, written in *; simpl in *;
    rewrite ?List.filter_app; simpl; rewrite ?Hn, ?app_nil_r; assumption.
Qed.

Lemma postProcess_keeps_disconnecting x messageId :
  keeps (unchanged _disconnecting x) (_postProcessMessage messageId).
Proof. keeps_all leaf_written. Qed.

Lemma postProcess_keeps_disconnectError x messageId :
  keeps (unchanged _disconnectError x) (_postProcessMessage messageId).
Proof. keeps_all leaf_written. Qed.

Lemma take_continuation_id messageId l k rest :
  take_continuation messageId l = Some (k, rest) -> k_messageId k = messageId.
Proof.
  revert rest. induction l as [|k0 l IH]; intros rest; simpl; [discriminate |].
  destruct (String.eqb (k_messageId k0) messageId) eqn:E.
  - intros [= <- _]. now apply String.eqb_eq.
  - destruct (take_continuation messageId l) as [[k' rest']|]; [| discriminate].
    intros [= <- _]. now apply (IH rest').
Qed.

(** Either way a handler completes, the generator goes through its
    [try]/[finally] from a state that differs from [st] in the bookkeeping
    of active and parked handlers only. *)
Lemma handler_completes_resume outcome msg messageId sub st st' :
  handler_completes outcome msg messageId sub st st' ->
  exists st0,
    st' = exec (_handleMessage_resume
                  {| k_messageId := messageId; k_msg := msg; k_subscription := sub |}
                  outcome) st0 /\
    transport st0 = transport st /\
    log st0 = log st /\
    _disconnecting st0 = _disconnecting st /\
    _disconnectError st0 = _disconnectError st /\
    _alwaysDisconnectOnUnhandledMsg st0 = _alwaysDisconnectOnUnhandledMsg st.
Proof.
  intros [(Hid & Hm & Hd & Hact & Hh & ->) | (rest & Hk & ->)].
  - exists (with_activeHandlers ({[ messageId ]} ∪ _activeHandlers st) st).
    split; [| now simpl].
    unfold matching in Hm.
    unfold exec, _handleMessage, inlineCallbacks, _handleMessage_gen.
    rewrite Hid. stepM. rewrite Hm. stepM. rewrite Hd.
    unfold _handlerStarted. stepM.
    destruct (decide (messageId ∈ _activeHandlers st)); [contradiction |].
    stepM. rewrite Hh.
    destruct outcome; unfold mbind, M_bind;
      match goal with
      | |- context [_handleMessage_resume ?k ?o ?s] =>
          destruct (_handleMessage_resume k o s) as [[[]|?] ?]
      end; reflexivity.
  - exists (with_suspended rest st). split; [| now simpl].
    unfold exec, handlerFired. stepM. rewrite Hk. unfold inlineCallbacks. stepM.
    unfold mbind, M_bind.
    match goal with
    | |- context [_handleMessage_resume ?k ?o ?s] =>
        destruct (_handleMessage_resume k o s) as [[[]|?] ?]
    end; reflexivity.
Qed.

Lemma isClientAck_modes sub :
  (ack sub = "auto" -> _isClientAck sub = false) /\
  (ack sub = "client" \/ ack sub = "client-individual" -> _isClientAck sub = true).
Proof.
  unfold _isClientAck, CLIENT_ACK_MODES. split.
  - intros ->. apply bool_decide_eq_false. set_solver.
  - intros [-> | ->]; apply bool_decide_eq_true; set_solver.
Qed.

Lemma postProcess_written name x messageId st :
  name <> "DISCONNECT" ->
  written name st = x ->
  written name (exec (_postProcessMessage messageId) st) = x.
Proof.
  intros Hname H.
  exact (keeps_elim _ _ st (postProcess_keeps_written name Hname x messageId) H).
Qed.

(** ** Acknowledging after the handler *)

(** C4. When the handler of a dispatched MESSAGE completes successfully, no
    ACK frame is written if the ack mode of the subscription is [auto], and
    exactly one, carrying the message-id of the message, if it is [client]
    or [client-individual]. *)
Theorem ack_mode_gating msg messageId sub st st' :
  handler_completes Success msg messageId sub st st' ->
  (ack sub = "auto" -> acks st' = acks st) /\
  (ack sub = "client" \/ ack sub = "client-individual" ->
     acks st' = (acks st ++ [Write (ackFrame messageId)])%list).
Proof.
  intros H. apply handler_completes_resume in H as (st0 & -> & Ht & _).
  unfold _handleMessage_resume. rewrite exec_try_finally. cbn [k_subscription k_messageId].
  destruct (isClientAck_modes sub) as [Hauto Hclient].
  unfold acks. split; intros Hmode.
  - rewrite (Hauto Hmode). apply postProcess_written; [discriminate |].
    unfold written, exec, pass. simpl. now rewrite Ht.
  - rewrite (Hclient Hmode). apply postProcess_written; [discriminate |].
    unfold written, exec, _ack, sendFrame, transport_write, modify. simpl.
    rewrite List.filter_app, Ht. reflexivity.
Qed.

(** ** A handler that raises *)

Lemma then_pass {A} (m : M A) st : ((m;; pass) st).2 = exec m st.
Proof. unfold exec, mbind, M_bind. now destruct (m st) as [[a|e] st']. Qed.

Lemma disconnect_failure_recorded e st :
  let st' := exec (disconnect (Some e)) st in
  _disconnectError st' = Some e /\ _disconnecting st' = true.
Proof.
  run_M. destruct (_disconnecting st) eqn:Hd; simpl; [auto |].
  destruct (bool_decide (_activeHandlers st ≠ ∅)); simpl; auto.
Qed.


(** ** Replaying subscriptions and handling CONNECTED *)

Lemma session_subscribe_headers dest h ctx s :
  let frame := (StompSession.subscribe dest h ctx s).1 in
  cmd frame = "SUBSCRIBE" /\
  headers frame !! StompSpec.DESTINATION_HEADER = Some dest /\
  is_Some (headers frame !! StompSpec.ID_HEADER).
Proof.
  unfold StompSession.subscribe.
  destruct (<[StompSpec.DESTINATION_HEADER:=dest]> (default ∅ h) !! StompSpec.ID_HEADER)
    as [i|] eqn:E; simpl.
  - split; [reflexivity |]. split; [apply lookup_insert_eq | rewrite E; eauto].
  - split; [reflexivity |]. split.
    + rewrite lookup_insert_ne by discriminate. apply lookup_insert_eq.
    + rewrite lookup_insert_eq. eauto.
Qed.

(** [subscribe] does not raise; it touches the Session and the registry and
    writes one SUBSCRIBE frame. *)
Lemma subscribe_effect dest h hdrs kwargs st :
  exists tok s subs f,
    cmd f = "SUBSCRIBE" /\
    subscribe dest h hdrs kwargs st =
      (Ret tok, with_session s (with_subscriptions subs
                  (with_transport (transport st ++ [Write f]) st))).
Proof.
  unfold subscribe. stepM.
  pose proof (session_subscribe_headers dest hdrs
                {| ctx_handler := h; ctx_kwargs := kwargs |} (_session st)) as Hh.
  destruct (StompSession.subscribe dest hdrs _ (_session st)) as [frame s'].
  simpl in Hh. destruct Hh as (Hcmd & Hdest & [i Hid]). stepM.
  unfold StompSession.token. cbn [headers].
  rewrite !lookup_insert_ne by discriminate. rewrite Hdest, Hid.
  unfold sendFrame, transport_write. stepM. eexists _, _, _, _.
  split; [| reflexivity]. exact Hcmd.
Qed.

Lemma subscribe_shape dest h hdrs kwargs st :
  exists tok s subs t,
    subscribe dest h hdrs kwargs st =
      (Ret tok, with_session s (with_subscriptions subs (with_transport t st))).
Proof.
  destruct (subscribe_effect dest h hdrs kwargs st) as (tok & s & subs & f & _ & H).
  eexists _, _, _, _. exact H.
Qed.

Lemma replay_entries_shape entries st :
  exists s subs t,
    forM_ entries (fun '(dest, hdrs, context) =>
      subscribe dest (ctx_handler context) (Some hdrs) (ctx_kwargs context);; pass) st =
      (Ret tt, with_session s (with_subscriptions subs (with_transport t st))).
Proof.
  revert st. induction entries as [|[[dest hdrs] context] entries IH]; intros st.
  - exists (_session st), (_subscriptions st), (transport st). now destruct st.
  - cbn [forM_]. rewrite bind_assoc.
    destruct (subscribe_shape dest (ctx_handler context) (Some hdrs)
                (ctx_kwargs context) st) as (tok & s & subs & t & Hs).
    erewrite bind_ret by exact Hs. stepM.
    destruct (IH (with_session s (with_subscriptions subs (with_transport t st))))
      as (s2 & subs2 & t2 & ->).
    exists s2, subs2, t2. reflexivity.
Qed.

Lemma replay_shape st :
  exists s subs t,
    _replay st =
      (Ret tt, with_session s (with_subscriptions subs (with_transport t st))).
Proof.
  unfold _replay. stepM.
  destruct (StompSession.replay (_session st)) as [entries s']. stepM.
  destruct (replay_entries_shape entries (with_session s' st)) as (s2 & subs2 & t2 & ->).
  exists s2, subs2, t2. reflexivity.
Qed.

(** CONNECTED with a connect pending: the "disconnected" Deferred is
    created, the subscriptions are replayed and the connect Deferred fires
    with success, whatever connect error is on record. *)
Lemma handleConnected_pending msg d st :
  _connectedDeferred st = Some d ->
  callbacks d = [] ->
  exists s subs t,
    _handleConnected msg st =
      (Ret tt,
       with_session s (with_subscriptions subs (with_transport t
         (with_connectedDeferred None
            (with_fired (fired st ++ [(ident d, Success)])
               (with_disconnectedDeferred
                  (Some {| ident := nextDeferred st; callbacks := [] |})
                  (with_nextDeferred (S (nextDeferred st))
                     (with_connectTimeoutDelayedCall None st)))))))).
Proof.
  intros Hd Hcb. unfold _handleConnected.
  assert (Hc : _cancelConnectTimeout st = (Ret tt, with_connectTimeoutDelayedCall None st)).
  { unfold _cancelConnectTimeout. stepM.
    destruct (_connectTimeoutDelayedCall st) eqn:E; [reflexivity |].
    unfold pass, mret, M_ret. f_equal. destruct st; simpl in *. now subst. }
  erewrite bind_ret by exact Hc. unfold newDeferred. stepM.
  match goal with
  | |- context [(_replay ≫= ?k) ?s0] =>
      destruct (replay_shape s0) as (s & subs & t & Hr);
      rewrite (bind_ret _replay k s0 tt _ Hr)
  end.
  stepM. cbn [_connectedDeferred with_session with_subscriptions with_transport
               with_disconnectedDeferred with_nextDeferred
               with_connectTimeoutDelayedCall].
  rewrite Hd. unfold fire. rewrite Hcb. cbn [forM_]. stepM.
  exists s, subs, t. reflexivity.
Qed.

(** ** The connect timeout *)

Lemma resolved_app d st l :
  map snd (List.filter (fun p : nat * Outcome => Nat.eqb p.1 (ident d)) (fired st ++ l)) =
  (resolved d st ++ map snd (List.filter (fun p : nat * Outcome => Nat.eqb p.1 (ident d)) l))%list.
Proof. unfold resolved. now rewrite List.filter_app, map_app. Qed.

(** The transport closes with a connect pending and a connect error on
    record: the connect Deferred fails with that error. *)
Lemma connectionLost_connect_error reason d e st :
  _connectedDeferred st = Some d ->
  _connectError st = Some e ->
  user_deferreds_plain st ->
  resolved d st = [] ->
  (forall dd, _disconnectedDeferred st = Some dd -> ident dd <> ident d) ->
  resolved d (exec (connectionLost reason) st) = [Failure e].
Proof.
  intros Hd He [Hp1 Hp2] Hres Hne. unfold resolved in *.
  destruct st; simpl in *; subst. destruct d as [i cbs]; simpl in *; subst.
  destruct _disconnectedDeferred0 as [[j cbs']|]; simpl in *; subst.
  - specialize (Hne _ eq_refl). simpl in Hne.
    assert (Hn : Nat.eqb j i = false) by now apply Nat.eqb_neq.
    destruct _connectTimeoutDelayedCall0, _disconnecting0;
      try destruct _disconnectError0; run_M;
      rewrite !List.filter_app, !map_app, Hres; simpl;
      rewrite Nat.eqb_refl, Hn; reflexivity.
  - destruct _connectTimeoutDelayedCall0; run_M;
      rewrite !List.filter_app, !map_app, Hres; simpl;
      rewrite Nat.eqb_refl; reflexivity.
Qed.

(** The transport closes with no connect pending: a Deferred other than
    the "disconnected" one is left alone. *)
Lemma connectionLost_not_pending reason d st :
  _connectedDeferred st = None ->
  plain (_disconnectedDeferred st) ->
  (forall dd, _disconnectedDeferred st = Some dd -> ident dd <> ident d) ->
  resolved d (exec (connectionLost reason) st) = resolved d st.
Proof.
  intros Hd Hp Hne. unfold resolved in *.
  destruct st; simpl in *; subst.
  destruct _disconnectedDeferred0 as [[j cbs']|]; simpl in *; subst.
  - specialize (Hne _ eq_refl). simpl in Hne.
    assert (Hn : Nat.eqb j (ident d) = false) by now apply Nat.eqb_neq.
    destruct _connectTimeoutDelayedCall0, _disconnecting0;
      try destruct _disconnectError0; run_M;
      rewrite !List.filter_app, !map_app; simpl;
      rewrite Hn; simpl; now rewrite app_nil_r.
  - destruct _connectTimeoutDelayedCall0; run_M; reflexivity.
Qed.

(** ** Draining the handlers before DISCONNECT *)

Section Drain.
Variable n0 : nat.
Variable A : gset string.

Ltac leaf_draining :=
  cbv beta in *;
  match goal with
  | H : draining _ _ _ _ /\ _ |- _ => destruct H as ((Hdis & [Hpc Hpd] & Hsub & Hidle) & Hempty)
  | H : draining _ _ _ _ |- _ => destruct H as (Hdis & [Hpc Hpd] & Hsub & Hidle)
  end;
  unfold draining, user_deferreds_plain, disconnects, written in *; simpl in *;
  rewrite ?List.filter_app in *; simpl in *; rewrite ?app_nil_r in *;
  repeat split; auto.

Lemma draining_mono F F' st :
  F ⊆ F' -> draining n0 A F st -> draining n0 A F' st.
Proof.
  intros HF (Hdis & Hp & Hsub & Hidle). repeat split; try apply Hp; auto.
  set_solver.
Qed.

Lemma sendFrame_keeps_draining F f :
  String.eqb (cmd f) "DISCONNECT" = false ->
  keeps (draining n0 A F) (sendFrame f).
Proof.
  intros Hf. unfold sendFrame, transport_write. apply keeps_modify. intros st H.
  leaf_draining. now rewrite Hf, app_nil_r.
Qed.

Lemma fire_plain_keeps (P : StompClient -> Prop) d o :
  callbacks d = [] ->
  (forall st, P st -> P (with_fired (fired st ++ [(ident d, o)]) st)) ->
  keeps P (fire d o).
Proof.
  intros Hcb H. unfold fire. rewrite Hcb. cbn [forM_].
  apply keeps_bind; [now apply keeps_modify | intros _; apply keeps_pass].
Qed.

(** With no handler active, [_disconnect] may write its frame. *)
Lemma disconnect_idle_keeps F :
  keeps (fun st => draining n0 A F st /\ _activeHandlers st = ∅) _disconnect.
Proof. keeps_all leaf_draining. Qed.

Lemma fire_idle_keeps F d :
  keeps (fun st => draining n0 A F st /\ _activeHandlers st = ∅)
    (fire d Success;; modify (with_finishedHandlersDeferred None)).
Proof.
  unfold fire, run_callback. keeps_split;
    try apply disconnect_idle_keeps;
    apply keeps_modify; intros ? ?; leaf_draining.
Qed.

Lemma disconnect_keeps_draining F failure :
  keeps (draining n0 A F) (disconnect failure).
Proof.
  apply keeps_intro. intros st H.
  assert (Hd : _disconnecting st = true) by apply H.
  rewrite disconnect_again by exact Hd.
  destruct failure; [| exact H]. cbn [snd]. leaf_draining.
Qed.

Lemma finish_keeps_draining F : keeps (draining n0 A F) _finish.
Proof.
  apply keeps_intro. intros st H. unfold _finish, _handlersInProgress. stepM.
  destruct (_finishedHandlersDeferred st) as [d|]; [| exact H].
  destruct (bool_decide (_activeHandlers st ≠ ∅)) eqn:Hbusy; [exact H |].
  apply bool_decide_eq_false in Hbusy.
  assert (Hempty : _activeHandlers st = ∅).
  { destruct (decide (_activeHandlers st = ∅)); [assumption | contradiction]. }
  apply (fire_idle_keeps F d st). split; assumption.
Qed.

Lemma handlerFinished_keeps_draining F messageId :
  messageId ∈ F -> keeps (draining n0 A F) (_handlerFinished messageId).
Proof.
  intros HF. unfold _handlerFinished. apply keeps_bind_gets. intros st H.
  destruct (decide (messageId ∈ _activeHandlers st)); [| exact H].
  cbn [modify snd]. leaf_draining; [set_solver |].
  intros Hlt. rewrite (Hidle Hlt). set_solver.
Qed.

Lemma messageHandlerFailed_keeps_draining F e messageId msg errDest :
  keeps (draining n0 A F) (_messageHandlerFailed e messageId msg errDest).
Proof.
  unfold _messageHandlerFailed, send, _ack, log_record. keeps_split;
    try apply disconnect_keeps_draining;
    try (apply sendFrame_keeps_draining; reflexivity);
    apply keeps_modify; intros ? ?; leaf_draining.
Qed.

Lemma resume_keeps_draining F k outcome :
  k_messageId k ∈ F -> keeps (draining n0 A F) (_handleMessage_resume k outcome).
Proof.
  intros HF. unfold _handleMessage_resume, _postProcessMessage, _ack. keeps_split;
    try apply messageHandlerFailed_keeps_draining;
    try (apply sendFrame_keeps_draining; reflexivity);
    try (now apply handlerFinished_keeps_draining);
    apply finish_keeps_draining.
Qed.

(** While the client is disconnecting no MESSAGE frame starts a handler. *)
Lemma handleMessage_keeps_draining F msg :
  keeps (draining n0 A F) (_handleMessage msg).
Proof.
  apply keeps_intro. intros st H.
  assert (Hd : _disconnecting st = true) by apply H.
  unfold _handleMessage, inlineCallbacks, _handleMessage_gen.
  destruct (headers msg !! StompSpec.MESSAGE_ID_HEADER) as [messageId|]; [| exact H].
  stepM. destruct (StompSession.token (headers msg) ≫= _) as [sub|].
  - stepM. rewrite Hd. exact H.
  - unfold log_record. stepM. cbn [snd]. leaf_draining.
Qed.

Lemma subscribe_keeps_draining F dest h hdrs kwargs :
  keeps (draining n0 A F) (subscribe dest h hdrs kwargs).
Proof.
  apply keeps_intro. intros st H.
  destruct (subscribe_effect dest h hdrs kwargs st) as (tok & s & subs & f & Hf & ->).
  cbn [snd]. leaf_draining. now rewrite Hf, app_nil_r.
Qed.

Lemma unsubscribe_keeps_draining F tok :
  keeps (draining n0 A F) (unsubscribe tok).
Proof.
  apply keeps_intro. intros st H. unfold unsubscribe, StompSession.unsubscribe. stepM.
  destruct (StompSession.get tok _); [| exact H].
  stepM. rewrite token_of_unsubscribe. stepM. cbn [_subscriptions with_session].
  destruct (_subscriptions st !! tok).
  - unfold sendFrame, transport_write. stepM. cbn [snd]. leaf_draining.
  - unfold log_record. cbn [modify snd]. leaf_draining.
Qed.

Lemma handleConnected_keeps_draining F msg :
  keeps (draining n0 A F) (_handleConnected msg).
Proof.
  unfold _handleConnected, _cancelConnectTimeout, _replay.
  apply keeps_bind; [keeps_split; apply keeps_modify; intros ? ?; leaf_draining |].
  intros _. apply keeps_bind_newDeferred; intros n;
    [apply keeps_modify; intros ? ?; leaf_draining |].
  apply keeps_bind; [apply keeps_modify; intros ? ?; leaf_draining |].
  intros _. apply keeps_bind.
  { keeps_split; try apply subscribe_keeps_draining;
      apply keeps_modify; intros ? ?; leaf_draining. }
  intros _. apply keeps_bind_gets. intros st H.
  destruct (_connectedDeferred st) as [cd|] eqn:Hcd; [| exact H].
  assert (Hcb : callbacks cd = []).
  { destruct H as (_ & [Hpc _] & _). now rewrite Hcd in Hpc. }
  refine (keeps_elim (draining n0 A F) _ st _ H). clear H.
  apply keeps_bind.
  - apply fire_plain_keeps; [exact Hcb |]. intros ? ?; leaf_draining.
  - intros _. apply keeps_modify; intros ? ?; leaf_draining.
Qed.

Lemma handleError_keeps_draining F msg :
  keeps (draining n0 A F) (_handleError msg).
Proof.
  unfold _handleError, log_record, transport_loseConnection. keeps_split;
    try apply disconnect_keeps_draining;
    apply keeps_modify; intros ? ?; leaf_draining.
Qed.

Lemma dispatch_keeps_draining F message :
  keeps (draining n0 A F) (dispatch message).
Proof.
  unfold dispatch, _handleReceipt, log_record. keeps_split;
    try apply handleMessage_keeps_draining;
    try apply handleConnected_keeps_draining;
    try apply handleError_keeps_draining;
    apply keeps_modify; intros ? ?; leaf_draining.
Qed.

Lemma connectionLost_keeps_draining F reason :
  keeps (draining n0 A F) (connectionLost reason).
Proof.
  unfold connectionLost, _cancelConnectTimeout, _handleConnectionLostConnect,
    _handleConnectionLostDisconnect, log_record.
  apply keeps_bind; [keeps_split; apply keeps_modify; intros ? ?; leaf_draining |].
  intros _. apply keeps_bind.
  - apply keeps_bind_gets. intros st H.
    destruct (_connectedDeferred st) as [d|] eqn:Hslot; [| exact H].
    assert (Hcb : callbacks d = []).
    { destruct H as (_ & [Hpc _] & _). now rewrite Hslot in Hpc. }
    refine (keeps_elim (draining n0 A F) _ st _ H). clear H.
    keeps_split;
      try (apply fire_plain_keeps; [exact Hcb |]; intros ? ?; leaf_draining);
      apply keeps_modify; intros ? ?; leaf_draining.
  - intros _. apply keeps_bind_gets. intros st H.
    destruct (_disconnectedDeferred st) as [d|] eqn:Hslot; [| exact H].
    assert (Hcb : callbacks d = []).
    { destruct H as (_ & [_ Hpd] & _). now rewrite Hslot in Hpd. }
    refine (keeps_elim (draining n0 A F) _ st _ H). clear H.
    keeps_split;
      try (apply fire_plain_keeps; [exact Hcb |]; intros ? ?; leaf_draining);
      apply keeps_modify; intros ? ?; leaf_draining.
Qed.

Lemma handlerFired_keeps_draining F messageId outcome :
  messageId ∈ F -> keeps (draining n0 A F) (handlerFired messageId outcome).
Proof.
  intros HF. unfold handlerFired. apply keeps_bind_gets. intros st H.
  destruct (take_continuation messageId (suspended st)) as [[k rest]|] eqn:Hk;
    [| exact H].
  apply take_continuation_id in Hk.
  refine (keeps_elim (draining n0 A F) _ st _ H). clear H.
  keeps_split; try (apply resume_keeps_draining; now rewrite Hk);
    apply keeps_modify; intros ? ?; leaf_draining.
Qed.

Lemma step_keeps_draining F e st :
  draining n0 A F st -> draining n0 A (fired_ids [e] ∪ F) (step e st).
Proof.
  intros H. destruct e; simpl;
    try (apply keeps_elim; [| apply (draining_mono F); [set_solver | exact H] ]).
  - unfold connect, _connect. keeps_split;
      try (apply sendFrame_keeps_draining; reflexivity);
      apply keeps_modify; intros ? ?; leaf_draining.
  - apply disconnect_keeps_draining.
  - apply subscribe_keeps_draining.
  - apply unsubscribe_keeps_draining.
  - unfold send. apply sendFrame_keeps_draining. reflexivity.
  - unfold dataReceived. apply keeps_forM_. intros m. apply dispatch_keeps_draining.
  - apply connectionLost_keeps_draining.
  - unfold timeoutFired, _connectTimeout, log_record, transport_loseConnection.
    keeps_split; apply keeps_modify; intros ? ?; leaf_draining.
  - apply handlerFired_keeps_draining. set_solver.
Qed.

Lemma run_keeps_draining es F st :
  draining n0 A F st -> draining n0 A (fired_ids es ∪ F) (run es st).
Proof.
  revert F st. induction es as [|e es IH]; intros F st H.
  - eapply draining_mono; [| exact H]. set_solver.
  - change (run (e :: es) st) with (run es (step e st)).
    apply (step_keeps_draining F e) in H. apply IH in H.
    eapply draining_mono; [| exact H].
    assert (Hc : fired_ids (e :: es) = fired_ids [e] ∪ fired_ids es)
      by (destruct e; simpl; set_solver).
    rewrite Hc. set_solver.
Qed.
End Drain.

(** Every state the client reaches from [__init__] has plain Deferreds in
    the slots handed to the caller. *)
Lemma step_keeps_user_deferreds_plain e st :
  user_deferreds_plain st -> user_deferreds_plain (step e st).
Proof.
  destruct e; simpl; apply keeps_elim;
    try (unfold dataReceived, dispatch); unfold user_deferreds_plain;
    keeps_all ltac:(simpl in *; tauto).
Qed.

Lemma reachable_user_deferreds_plain session always es :
  user_deferreds_plain (run es (__init__ session always)).
Proof.
  assert (H : user_deferreds_plain (__init__ session always)) by (split; exact I).
  revert H. generalize (__init__ session always).
  induction es as [|e es IH]; intros st H; [exact H |].
  apply IH. now apply step_keeps_user_deferreds_plain.
Qed.

Lemma fired_ids_elem messageId es :
  messageId ∈ fired_ids es -> exists outcome, In (EHandlerFired messageId outcome) es.
Proof.
  induction es as [|e es IH]; simpl.
  - set_solver.
  - intros H. destruct e;
      try (destruct (IH H) as [o Ho]; exists o; now right).
    apply elem_of_union in H as [H | H].
    + apply elem_of_singleton in H as ->. exists outcome. now left.
    + destruct (IH H) as [o Ho]. exists o. now right.
Qed.

(** A call of [disconnect] with handlers active writes nothing and leaves
    the client draining. *)
Lemma disconnect_starts_drain failure st :
  user_deferreds_plain st ->
  _activeHandlers st ≠ ∅ ->
  let st1 := exec (disconnect failure) st in
  transport st1 = transport st /\
  draining (disconnects st) (_activeHandlers st) ∅ st1.
Proof.
  intros [Hpc Hpd] Hbusy. apply busy in Hbusy.
  unfold draining, user_deferreds_plain, disconnects, written.
  destruct failure; run_M; destruct (_disconnecting st) eqn:Hd; simpl;
    rewrite ?Hbusy; simpl; rewrite ?Hd;
    (repeat split; auto; [set_solver | lia]).
Qed.

(** C3. A call of [disconnect] while handlers are active writes nothing to
    the transport, and whatever happens afterwards, a DISCONNECT frame is
    written only when the set of active handlers is empty, every handler
    that was active at the call having been resumed by then.  With no
    handler active, a first call of [disconnect] writes the DISCONNECT frame
    (and closes the transport) at once. *)
Theorem drain_before_disconnect st failure :
  user_deferreds_plain st ->
  (_activeHandlers st ≠ ∅ ->
     transport (exec (disconnect failure) st) = transport st /\
     forall es,
       let st' := run es (exec (disconnect failure) st) in
       disconnects st < disconnects st' ->
       _activeHandlers st' = ∅ /\
       forall messageId, messageId ∈ _activeHandlers st ->
         exists outcome, In (EHandlerFired messageId outcome) es) /\
  (_disconnecting st = false -> _activeHandlers st = ∅ ->
     transport (exec (disconnect failure) st) =
       (transport st ++ [Write commands.disconnect; LoseConnection])%list).
Proof.
  intros Hp. split.
  - intros Hbusy.
    destruct (disconnect_starts_drain failure st Hp Hbusy) as [Ht Hdrain].
    split; [exact Ht |]. intros es st' Hlt.
    apply (run_keeps_draining _ _ es) in Hdrain. fold st' in Hdrain.
    destruct Hdrain as (_ & _ & Hsub & Hidle).
    specialize (Hidle Hlt). split; [exact Hidle |].
    intros messageId Hin. apply fired_ids_elem.
    destruct (decide (messageId ∈ fired_ids es)) as [|Hnot]; [assumption |].
    exfalso. rewrite Hidle in Hsub. set_solver.
  - intros Hd Hidle.
    destruct failure; run_M; rewrite Hd; simpl; rewrite Hidle, idle; simpl;
      try destruct (_disconnectError st); simpl; now rewrite <- app_assoc.
Qed.

(** * The properties on the example session *)

Import Example.

(** The timeout of [connecting] fires and the transport is closed; a
    CONNECTED frame is handled before the close: the connect Deferred has
    fired with success, not with [StompConnectTimeout]. *)
Lemma connected_after_timeout_succeeds :
  let st1 := run [ETimeoutFired] connecting in
  _connectedDeferred st1 = Some d0 /\
  _connectError st1 = Some (StompConnectTimeout 5) /\
  last (transport st1) = Some LoseConnection /\
  resolved d0 (run [EDataReceived [connectedFrame]; EConnectionLost ConnectionDone] st1) =
    [Success] /\
  resolved d0 (run [EDataReceived [connectedFrame]; EConnectionLost ConnectionDone] st1) <>
    [Failure (StompConnectTimeout 5)].
Proof.
  repeat split; try (vm_compute; reflexivity). vm_compute. discriminate.
Qed.

Lemma duplicate_message_raises_example :
  let st1 := exec (_handleMessage (messageFrame "m1" "slow")) subscribed in
  "m1" ∈ _activeHandlers st1 /\
  _handleMessage_gen (messageFrame "m1" "again") st1 =
    (Raise (StompProtocolError (DuplicateMessage "m1")), st1) /\
  _handleMessage (messageFrame "m1" "again") st1 =
    (Ret (Errored (StompProtocolError (DuplicateMessage "m1"))), st1).
Proof.
  apply (duplicate_message_raises subscribed (messageFrame "m1" "slow")
           (messageFrame "m1" "again") "m1" (subscriptionA None)).
  - vm_compute. reflexivity.
  - vm_compute. reflexivity.
  - vm_compute. reflexivity.
  - exists (subscriptionA None). vm_compute. reflexivity.
  - vm_compute. reflexivity.
  - vm_compute. reflexivity.
Defined.

Lemma drain_before_disconnect_example :
  transport (exec (disconnect None) working) = transport working /\
  forall es,
    let st' := run es (exec (disconnect None) working) in
    disconnects working < disconnects st' ->
    _activeHandlers st' = ∅ /\
    forall messageId, messageId ∈ _activeHandlers working ->
      exists outcome, In (EHandlerFired messageId outcome) es.
Proof.
  apply (proj1 (drain_before_disconnect working None
                  (conj (I : plain (_connectedDeferred working)) eq_refl))).
  intros H. apply (f_equal (fun s : gset string => bool_decide ("m1" ∈ s))) in H.
  vm_compute in H. discriminate.
Defined.

(** On the wire of the example: nothing after [disconnect] until the
    handler of "m1" completes, then its ACK, then DISCONNECT. *)
Example drain_wire_order :
  let st1 := exec (disconnect None) working in
  transport st1 = transport working /\
  transport (run [EHandlerFired "m1" Success] st1) =
    (transport working ++
       [Write (ackFrame "m1"); Write commands.disconnect; LoseConnection])%list.
Proof. split; vm_compute; reflexivity. Qed.

Lemma ack_mode_gating_example :
  acks (exec (_handleMessage (messageFrame "m2" "ok")) subscribed) =
    (acks subscribed ++ [Write (ackFrame "m2")])%list.
Proof.
  refine (proj2 (ack_mode_gating (messageFrame "m2" "ok") "m2" (subscriptionA None)
                   subscribed _ _) (or_introl eq_refl)).
  left. repeat split; try (vm_compute; reflexivity).
  assert (H : _activeHandlers subscribed = ∅) by (vm_compute; reflexivity).
  rewrite H. apply not_elem_of_empty.
Defined.


Lemma disconnect_forgets_example :
  StompSession.subscriptions (_session working) <> [] /\
  StompSession.subscriptions (_session (exec _disconnect working)) = [] /\
  _session (exec _disconnect (drainingAfter (HandlerError "boom"))) =
    _session (drainingAfter (HandlerError "boom")).
Proof.
  split; [vm_compute; discriminate |]. split.
  - apply (proj1 (disconnect_forgets_iff_clean working)). vm_compute. reflexivity.
  - apply (proj1 (proj2 (disconnect_forgets_iff_clean
                           (drainingAfter (HandlerError "boom"))))
             (HandlerError "boom")).
    vm_compute. reflexivity.
Defined.

Lemma disconnect_while_disconnecting_example :
  let st := drainingAfter (HandlerError "first") in
  (disconnect None st).1 = Ret (_disconnectedDeferred st) /\
  exec (disconnect None) st = st.
Proof.
  apply (disconnect_while_disconnecting (drainingAfter (HandlerError "first")) None).
  vm_compute. reflexivity.
Defined.

(** A second [disconnect] with a failure replaces the recorded one. *)
Lemma disconnect_overwrites_cause :
  let st := drainingAfter (HandlerError "first") in
  _disconnecting st = true /\
  _disconnectError st = Some (HandlerError "first") /\
  _disconnectError (exec (disconnect (Some (HandlerError "second"))) st) =
    Some (HandlerError "second") /\
  exec (disconnect (Some (HandlerError "second"))) st <> st.
Proof.
  repeat split; try (vm_compute; reflexivity).
  intros H. apply (f_equal _disconnectError) in H. vm_compute in H. discriminate.
Qed.

Lemma unsubscribe_recorded_token_example :
  unsubscribe tokenA subscribed =
    (Ret tt,
     with_transport (transport subscribed ++ [Write (commands.unsubscribe tokenA)])
       (with_subscriptions (delete tokenA (_subscriptions subscribed))
          (with_session
             {| StompSession.subscriptions :=
                  StompSession.remove tokenA
                    (StompSession.subscriptions (_session subscribed));
                StompSession.nextSubscription :=
                  StompSession.nextSubscription (_session subscribed) |}
             subscribed))).
Proof.
  refine (proj2 (unsubscribe_recorded_token subscribed tokenA
                   ("/queue/a",
                    <[ "id" := "0" ]> (<[ "destination" := "/queue/a" ]> ∅),
                    {| ctx_handler := worker; ctx_kwargs := ∅ |}) _) _).
  - vm_compute. reflexivity.
  - exists (subscriptionA None). vm_compute. reflexivity.
Defined.

(** A token that neither the Session nor the local registry knows: the
    error of the Session reaches the caller, and no warning is logged. *)
Lemma unsubscribe_unknown_token_raises :
  _subscriptions client0 !! tokenA = None /\
  unsubscribe tokenA client0 = (Raise (UnknownSubscription tokenA), client0).
Proof. split; vm_compute; reflexivity. Qed.

Lemma disconnect_before_connected_example :
  (disconnect None (run neverConnected (__init__ None false))).1 = Ret None.
Proof.
  apply (disconnect_before_connected_returns_None None false neverConnected None).
  vm_compute. reflexivity.
Defined.

Lemma unmatched_or_late_message_example :
  let st := drainingAfter (HandlerError "boom") in
  _handleMessage strayFrame st =
    (Ret Fired,
     with_log (log st ++ [WarnNoHandlerFound "m9" (headers strayFrame)]) st) /\
  _handleMessage (messageFrame "m1" "again") st = (Ret Fired, st).
Proof.
  split.
  - refine (proj1 (unmatched_or_late_message_dropped
                     (drainingAfter (HandlerError "boom")) strayFrame "m9" _) _);
      vm_compute; reflexivity.
  - refine (proj1 (proj2 (unmatched_or_late_message_dropped
                     (drainingAfter (HandlerError "boom"))
                     (messageFrame "m1" "again") "m1" _)) _ _).
    + vm_compute. reflexivity.
    + vm_compute. reflexivity.
    + exists (subscriptionA None). vm_compute. reflexivity.
Defined.

(** While draining, a MESSAGE whose id is already active is dropped
    without error. *)
Example late_duplicate_dropped :
  let st := drainingAfter (HandlerError "boom") in
  "m1" ∈ _activeHandlers st /\
  _handleMessage (messageFrame "m1" "again") st = (Ret Fired, st).
Proof.
  split; [| vm_compute; reflexivity].
  assert (H : _activeHandlers (drainingAfter (HandlerError "boom")) = {[ "m1" ]})
    by (vm_compute; reflexivity).
  simpl. rewrite H. now apply elem_of_singleton.
Qed.

(** * Further properties of the client *)

(** ** [dataReceived] *)

Lemma forM_app {A} (l1 l2 : list A) (f : A -> M unit) st st1 :
  forM_ l1 f st = (Ret tt, st1) ->
  forM_ (l1 ++ l2) f st = forM_ l2 f st1.
Proof.
  revert st. induction l1 as [|x l1 IH]; intros st; simpl.
  - now intros [= <-].
  - unfold mbind, M_bind. destruct (f x st) as [[[]|e] st']; [| discriminate].
    apply IH.
Qed.

(** A frame with a command the client has no handler for: the frames
    before it are handled, [StompFrameError] is raised for it, and the
    frames after it are not looked at. *)
Theorem dataReceived_unknown_command before bad after st st1 :
  ~ In (cmd bad) KNOWN_COMMANDS ->
  dataReceived before st = (Ret tt, st1) ->
  dataReceived (before ++ bad :: after) st = (Raise (StompFrameError bad), st1).
Proof.
  intros Hbad Hbefore. unfold dataReceived in *.
  rewrite (forM_app _ _ _ _ _ Hbefore). simpl.
  assert (Hd : dispatch bad st1 = (Raise (StompFrameError bad), st1)).
  { unfold dispatch.
    destruct (String.eqb_spec (cmd bad) "MESSAGE") as [E|_];
      [exfalso; apply Hbad; rewrite E; simpl; tauto |].
    destruct (String.eqb_spec (cmd bad) "CONNECTED") as [E|_];
      [exfalso; apply Hbad; rewrite E; simpl; tauto |].
    destruct (String.eqb_spec (cmd bad) "ERROR") as [E|_];
      [exfalso; apply Hbad; rewrite E; simpl; tauto |].
    destruct (String.eqb_spec (cmd bad) "RECEIPT") as [E|_];
      [exfalso; apply Hbad; rewrite E; simpl; tauto |].
    reflexivity. }
  unfold mbind, M_bind. now rewrite Hd.
Qed.

Lemma handleMessage_returns msg st :
  exists r, (_handleMessage msg st).1 = Ret r.
Proof.
  unfold _handleMessage, inlineCallbacks.
  destruct (_handleMessage_gen msg st) as [[[]|e] st']; eauto.
Qed.

(** Nothing that goes wrong in the dispatch of a MESSAGE frame (no
    message-id, a duplicate, a handler that raises) comes out of
    [dataReceived]: on MESSAGE frames alone it returns. *)
Theorem dataReceived_messages_never_raise messages st :
  Forall (fun m => cmd m = "MESSAGE") messages ->
  (dataReceived messages st).1 = Ret tt.
Proof.
  intros H. revert st. unfold dataReceived.
  induction H as [|m ms Hm _ IH]; intros st; [reflexivity |].
  simpl. unfold dispatch. rewrite Hm. simpl.
  destruct (handleMessage_returns m st) as [r Hr].
  unfold mbind, M_bind in *. destruct (_handleMessage m st) as [[r'|e] st'];
    [| discriminate]. simpl. apply IH.
Qed.

(** ** ERROR frames *)

(** An ERROR frame while the connect is pending closes the transport and
    starts no disconnect; when the transport is then lost, the connect
    Deferred fails with the [StompProtocolError] of that frame. *)
Theorem error_while_connecting_fails_connect st d msg reason :
  _connectedDeferred st = Some d ->
  user_deferreds_plain st ->
  resolved d st = [] ->
  (forall dd, _disconnectedDeferred st = Some dd -> ident dd <> ident d) ->
  let st1 := exec (_handleError msg) st in
  transport st1 = (transport st ++ [LoseConnection])%list /\
  _disconnecting st1 = _disconnecting st /\
  resolved d (exec (connectionLost reason) st1) =
    [Failure (StompProtocolError (ErrorWhileConnecting msg))].
Proof.
  intros Hd Hp Hres Hne st1.
  assert (H1 : st1 =
            with_connectError (Some (StompProtocolError (ErrorWhileConnecting msg)))
              (with_transport (transport st ++ [LoseConnection])
                 (with_log (log st ++ [InfoReceivedError msg]) st))).
  { subst st1. unfold exec, _handleError, log_record, transport_loseConnection.
    stepM. cbn [_connectedDeferred with_log]. rewrite Hd. stepM. reflexivity. }
  rewrite H1. split; [reflexivity |]. split; [reflexivity |].
  apply connectionLost_connect_error.
  - exact Hd.
  - reflexivity.
  - exact Hp.
  - exact Hres.
  - exact Hne.
Qed.

(** With no connect pending, an ERROR frame whose [message] header holds
    "Unexpected ACK received for message-id" is logged and otherwise
    ignored. *)
Theorem unexpected_ack_error_ignored st msg :
  _connectedDeferred st = None ->
  contains UNEXPECTED_ACK (default "" (headers msg !! "message")) = true ->
  _handleError msg st = (Ret tt, with_log (log st ++ [InfoReceivedError msg]) st).
Proof.
  intros Hd Hc. unfold _handleError, log_record. stepM.
  cbn [_connectedDeferred with_log]. now rewrite Hd, Hc.
Qed.



(** ** Losing the connection *)

(** With the "disconnected" Deferred pending (and no connect pending), the
    loss of the connection fires it: with [StompConnectionError] when no
    disconnect had been asked for, with the recorded disconnect error when
    there is one, with success otherwise.  The slot and the recorded error
    are cleared and nothing is written. *)
Theorem connectionLost_resolves_disconnected st d reason :
  _connectedDeferred st = None ->
  _disconnectedDeferred st = Some d ->
  callbacks d = [] ->
  let st' := exec (connectionLost reason) st in
  (_disconnecting st = false ->
     fired st' = (fired st ++ [(ident d, Failure StompConnectionError)])%list) /\
  (forall e, _disconnecting st = true -> _disconnectError st = Some e ->
     fired st' = (fired st ++ [(ident d, Failure e)])%list) /\
  (_disconnecting st = true -> _disconnectError st = None ->
     fired st' = (fired st ++ [(ident d, Success)])%list) /\
  _disconnectedDeferred st' = None /\
  _disconnectError st' = None /\
  transport st' = transport st.
Proof.
  intros Hc Hd Hcb. destruct st; simpl in *; subst.
  destruct d as [i cbs]; simpl in *; subst.
  destruct _connectTimeoutDelayedCall0, _disconnecting0, _disconnectError0;
    run_M; repeat split; intros; try discriminate; try congruence.
Qed.

(** The connection is lost while the connect is pending and no connect
    error is on record: an error is logged and the connect Deferred fails
    with [StompConnectionError]. *)
Theorem connectionLost_before_connected st d reason :
  _connectedDeferred st = Some d ->
  callbacks d = [] ->
  _connectError st = None ->
  _disconnectedDeferred st = None ->
  let st' := exec (connectionLost reason) st in
  fired st' = (fired st ++ [(ident d, Failure StompConnectionError)])%list /\
  log st' = (log st ++ [ErrorLostBeforeConnected])%list /\
  _connectedDeferred st' = None /\
  _connectTimeoutDelayedCall st' = None.
Proof.
  intros Hc Hcb He Hd. destruct st; simpl in *; subst.
  destruct d as [i cbs]; simpl in *; subst.
  destruct _connectTimeoutDelayedCall0; run_M; repeat split.
Qed.

Lemma callbacks_shape cbs st :
  exists s t,
    forM_ cbs run_callback st = (Ret tt, with_session s (with_transport t st)).
Proof.
  revert st. induction cbs as [|[] cbs IH]; intros st.
  - exists (_session st), (transport st). now destruct st.
  - cbn [forM_].
    assert (H : exists s t, run_callback CallDisconnect st =
                              (Ret tt, with_session s (with_transport t st))).
    { destruct st. run_M.
      destruct _disconnectError0;
        eexists _, ((transport0 ++ [Write commands.disconnect]) ++ [LoseConnection])%list;
        reflexivity. }
    destruct H as (s & t & H). erewrite bind_ret by exact H. cbv beta.
    destruct (IH (with_session s (with_transport t st))) as (s2 & t2 & ->).
    exists s2, t2. reflexivity.
Qed.

Lemma fire_shape d o st :
  exists s t,
    fire d o st =
      (Ret tt, with_session s (with_transport t
                 (with_fired (fired st ++ [(ident d, o)]) st))).
Proof.
  unfold fire. stepM. apply callbacks_shape.
Qed.

(** After the loss of the connection the two Deferreds of the caller are
    gone and the connect timeout is cancelled. *)
Lemma connectionLost_clears reason st :
  let st' := exec (connectionLost reason) st in
  (connectionLost reason st).1 = Ret tt /\
  _connectedDeferred st' = None /\
  _disconnectedDeferred st' = None /\
  _connectTimeoutDelayedCall st' = None.
Proof.
  unfold exec, connectionLost.
  assert (Hc : _cancelConnectTimeout st = (Ret tt, with_connectTimeoutDelayedCall None st)).
  { unfold _cancelConnectTimeout. stepM.
    destruct (_connectTimeoutDelayedCall st) eqn:E; [reflexivity |].
    unfold pass, mret, M_ret. f_equal. destruct st; simpl in *. now subst. }
  erewrite bind_ret by exact Hc.
  set (st1 := with_connectTimeoutDelayedCall None st).
  assert (H1 : exists st2, _handleConnectionLostConnect st1 = (Ret tt, st2) /\
                 _connectedDeferred st2 = None /\
                 _disconnectedDeferred st2 = _disconnectedDeferred st1 /\
                 _connectTimeoutDelayedCall st2 = None).
  { unfold _handleConnectionLostConnect, log_record. stepM.
    destruct (_connectedDeferred st1) as [d|] eqn:Hd.
    - stepM. destruct (_connectError st1) as [e|]; stepM;
        match goal with
        | |- context [(fire ?d ?o ≫= ?k) ?s] =>
            destruct (fire_shape d o s) as (s' & t' & Hf);
            rewrite (bind_ret (fire d o) k s tt _ Hf)
        end; eexists; (split; [reflexivity |]); now simpl.
    - exists st1. now repeat split. }
  destruct H1 as (st2 & H2 & Hc2 & Hd2 & Ht2). erewrite bind_ret by exact H2.
  unfold _handleConnectionLostDisconnect. stepM.
  destruct (_disconnectedDeferred st2) as [d|] eqn:Hd.
  - stepM. destruct (_disconnecting st2); stepM;
      cbn [_disconnectError with_disconnectError];
      try destruct (_disconnectError st2) as [e|]; stepM;
      match goal with
      | |- context [(fire ?d ?o ≫= ?k) ?s] =>
          destruct (fire_shape d o s) as (s' & t' & Hf);
          rewrite (bind_ret (fire d o) k s tt _ Hf)
      end; stepM; simpl; auto.
  - simpl. auto.
Qed.

(** The loss of the connection is handled once: a second
    [connectionLost] changes nothing. *)
Theorem connectionLost_twice reason reason' st :
  exec (connectionLost reason') (exec (connectionLost reason) st) =
  exec (connectionLost reason) st.
Proof.
  destruct (connectionLost_clears reason st) as (_ & Hc & Hd & Ht).
  set (st' := exec (connectionLost reason) st) in *. clearbody st'.
  run_M. now rewrite Ht, Hc, Hd.
Qed.

(** ** The connect timeout *)

Lemma timeoutFired_unscheduled st :
  _connectTimeoutDelayedCall st = None -> timeoutFired st = (Ret tt, st).
Proof. intros H. unfold timeoutFired. stepM. now rewrite H. Qed.

(** ** Handlers in flight *)

Ltac leaf_unchanged :=
  unfold unchanged in *; simpl in *; first [assumption | reflexivity | congruence].

(** From its [yield] on, the generator removes its message-id from the
    active handlers, whatever the outcome of the handler, and leaves the
    other parked generators alone. *)
Lemma resume_active k outcome st :
  let st' := exec (_handleMessage_resume k outcome) st in
  _activeHandlers st' = _activeHandlers st ∖ {[ k_messageId k ]} /\
  suspended st' = suspended st.
Proof.
  unfold _handleMessage_resume. rewrite exec_try_finally.
  set (body := match outcome with Success => _ | Failure e => _ end).
  assert (Hb : keeps (unchanged (fun s => (_activeHandlers s, suspended s))
                        (_activeHandlers st, suspended st)) body).
  { subst body. destruct outcome; keeps_all leaf_unchanged. }
  apply (keeps_elim _ _ st) in Hb; [| reflexivity].
  set (st1 := exec body st) in *. clearbody st1. unfold unchanged in Hb.
  injection Hb as Ha Hs.
  assert (Hf : forall X, keeps (unchanged (fun s => (_activeHandlers s, suspended s)) X)
                           _finish).
  { intros X. keeps_all leaf_unchanged. }
  unfold exec, _postProcessMessage, _handlerFinished. stepM.
  destruct (decide (k_messageId k ∈ _activeHandlers st1)) as [Hin|Hin].
  - stepM.
    match goal with
    | |- context [_finish ?s] =>
        pose proof (Hf _ s eq_refl) as H; unfold unchanged in H;
        injection H as Ha' Hs'
    end.
    rewrite Ha', Hs'. simpl. now rewrite Ha, Hs.
  - simpl. rewrite Ha, Hs. split; [| reflexivity]. rewrite Ha in Hin. set_solver.
Qed.

(** Whatever way and with whatever outcome the handler of a dispatched
    MESSAGE completes, its message-id is no longer active afterwards and
    no other id has become active or inactive. *)
Theorem handler_completion_deactivates outcome msg messageId sub st st' :
  handler_completes outcome msg messageId sub st st' ->
  _activeHandlers st' = _activeHandlers st ∖ {[ messageId ]}.
Proof.
  intros [(Hid & Hm & Hd & Hact & Hh & ->) | (rest & Hk & ->)].
  - unfold matching in Hm.
    unfold exec, _handleMessage, inlineCallbacks, _handleMessage_gen.
    rewrite Hid. stepM. rewrite Hm. stepM. rewrite Hd.
    unfold _handlerStarted. stepM.
    destruct (decide (messageId ∈ _activeHandlers st)); [contradiction |].
    stepM. rewrite Hh.
    destruct outcome; unfold mbind, M_bind;
      match goal with
      | |- context [_handleMessage_resume ?k ?o ?s] =>
          destruct (resume_active k o s) as [Ha _]; unfold exec in Ha;
          destruct (_handleMessage_resume k o s) as [[[]|?] ?]
      end; simpl in *; rewrite Ha; set_solver.
  - unfold exec, handlerFired. stepM. rewrite Hk. unfold inlineCallbacks. stepM.
    unfold mbind, M_bind.
    match goal with
    | |- context [_handleMessage_resume ?k ?o ?s] =>
        destruct (resume_active k o s) as [Ha _]; unfold exec in Ha;
        destruct (_handleMessage_resume k o s) as [[[]|?] ?]
    end; simpl in *; exact Ha.
Qed.

Lemma take_continuation_split messageId l k rest :
  take_continuation messageId l = Some (k, rest) ->
  exists l1 l2, l = (l1 ++ k :: l2)%list /\ rest = (l1 ++ l2)%list /\
                k_messageId k = messageId.
Proof.
  revert rest. induction l as [|k0 l IH]; intros rest; simpl; [discriminate |].
  destruct (String.eqb (k_messageId k0) messageId) eqn:E.
  - intros [= <- <-]. exists [], l. apply String.eqb_eq in E. auto.
  - destruct (take_continuation messageId l) as [[k' rest']|]; [| discriminate].
    intros [= <- <-]. destruct (IH rest' eq_refl) as (l1 & l2 & -> & -> & Hk).
    exists (k0 :: l1), l2. auto.
Qed.

Lemma handleMessage_keeps_inflight msg : keeps inflight (_handleMessage msg).
Proof.
  apply keeps_intro. intros st [Ha Hn].
  unfold _handleMessage, inlineCallbacks, _handleMessage_gen.
  destruct (headers msg !! StompSpec.MESSAGE_ID_HEADER) as [messageId|];
    [| now split].
  stepM. destruct (StompSession.token (headers msg) ≫= _) as [sub|];
    [| unfold log_record; stepM; now split].
  stepM. destruct (_disconnecting st); [now split |].
  unfold _handlerStarted. stepM.
  destruct (decide (messageId ∈ _activeHandlers st)) as [Hin|Hin]; [now split |].
  stepM.
  assert (Hnew : messageId ∉ map k_messageId (suspended st)).
  { intros H. apply Hin. rewrite Ha. now apply elem_of_list_to_set. }
  destruct (handler sub msg).
  - unfold mbind, M_bind.
    match goal with
    | |- context [_handleMessage_resume ?k ?o ?s] =>
        destruct (resume_active k o s) as [Ha' Hs']; unfold exec in Ha', Hs';
        destruct (_handleMessage_resume k o s) as [[[]|?] ?]
    end; simpl in *; (split; [rewrite Ha', Hs', <- Ha; set_solver | now rewrite Hs']).
  - unfold mbind, M_bind.
    match goal with
    | |- context [_handleMessage_resume ?k ?o ?s] =>
        destruct (resume_active k o s) as [Ha' Hs']; unfold exec in Ha', Hs';
        destruct (_handleMessage_resume k o s) as [[[]|?] ?]
    end; simpl in *; (split; [rewrite Ha', Hs', <- Ha; set_solver | now rewrite Hs']).
  - stepM. unfold inflight. simpl. split.
    + rewrite map_app, list_to_set_app_L, <- Ha. simpl. set_solver.
    + rewrite map_app. apply NoDup_app. split; [exact Hn |]. split.
      * intros x Hx Hx'. apply list_elem_of_singleton in Hx'. now subst.
      * apply NoDup_singleton.
Qed.

Lemma handlerFired_keeps_inflight messageId outcome :
  keeps inflight (handlerFired messageId outcome).
Proof.
  apply keeps_intro. intros st [Ha Hn]. unfold handlerFired. stepM.
  destruct (take_continuation messageId (suspended st)) as [[k rest]|] eqn:Hk;
    [| now split].
  destruct (take_continuation_split _ _ _ _ Hk) as (l1 & l2 & Hl & -> & Hid).
  stepM. unfold inlineCallbacks, mbind, M_bind.
  match goal with
  | |- context [_handleMessage_resume ?k ?o ?s] =>
      destruct (resume_active k o s) as [Ha' Hs']; unfold exec in Ha', Hs';
      destruct (_handleMessage_resume k o s) as [[[]|?] ?]
  end; simpl in *; rewrite Hl, map_app in *; simpl in *;
    apply NoDup_app in Hn as (Hn1 & Hn2 & Hn3); apply NoDup_cons in Hn3 as [Hn3 Hn4];
    (split;
     [ rewrite Ha', Ha, Hs', map_app, !list_to_set_app_L; simpl;
       assert (k_messageId k ∉ map k_messageId l1)
         by (intros H; apply (Hn2 _ H); now left);
       set_solver
     | rewrite Hs', map_app; apply NoDup_app; split; [exact Hn1 |];
       split; [| exact Hn4]; intros x Hx Hx'; apply (Hn2 x Hx); now right ]).
Qed.

Lemma step_keeps_inflight e st : inflight st -> inflight (step e st).
Proof.
  destruct e; simpl; apply keeps_elim;
    try apply handlerFired_keeps_inflight;
    try (unfold inflight; keeps_all ltac:(simpl in *; assumption)).
  unfold dataReceived. apply keeps_forM_. intros m. unfold dispatch.
  destruct (cmd m =? "MESSAGE")%string.
  - apply keeps_bind; [apply handleMessage_keeps_inflight | intros _; apply keeps_pass].
  - destruct (cmd m =? "CONNECTED")%string;
      [| destruct (cmd m =? "ERROR")%string;
         [| destruct (cmd m =? "RECEIPT")%string ] ];
      unfold inflight; try apply keeps_raise;
      keeps_all ltac:(simpl in *; assumption).
Qed.

(** In every state the client reaches from [__init__], the active-handlers
    set is exactly the set of message-ids whose handler has been started
    and has not completed, and no id is in a handler twice. *)
Theorem active_handlers_are_those_in_flight session always es :
  inflight (run es (__init__ session always)).
Proof.
  assert (H : inflight (__init__ session always)).
  { split; [reflexivity | constructor]. }
  revert H. generalize (__init__ session always).
  induction es as [|e es IH]; intros st H; [exact H |].
  apply IH. now apply step_keeps_inflight.
Qed.

(** ** Once disconnecting *)

Section WindingDown.
Variable A : gset string.

Ltac leaf_winding :=
  match goal with
  | H : winding_down _ _ |- _ => destruct H as [Hdis Hsub]
  end;
  unfold winding_down in *; simpl in *;
  split; [first [assumption | reflexivity] | assumption].

Lemma handlerFinished_keeps_winding messageId :
  keeps (winding_down A) (_handlerFinished messageId).
Proof.
  unfold _handlerFinished. apply keeps_bind_gets. intros st H.
  destruct (decide (messageId ∈ _activeHandlers st)); [| exact H].
  cbn [modify snd]. destruct H as [Hdis Hsub]. split; [exact Hdis |].
  simpl. set_solver.
Qed.

Lemma resume_keeps_winding k outcome :
  keeps (winding_down A) (_handleMessage_resume k outcome).
Proof.
  unfold _handleMessage_resume, _postProcessMessage. keeps_split;
    try apply handlerFinished_keeps_winding;
    keeps_all leaf_winding.
Qed.

Lemma handleMessage_keeps_winding msg :
  keeps (winding_down A) (_handleMessage msg).
Proof.
  apply keeps_intro. intros st H.
  assert (Hd : _disconnecting st = true) by apply H.
  unfold _handleMessage, inlineCallbacks, _handleMessage_gen.
  destruct (headers msg !! StompSpec.MESSAGE_ID_HEADER) as [messageId|]; [| exact H].
  stepM. destruct (StompSession.token (headers msg) ≫= _) as [sub|].
  - stepM. rewrite Hd. exact H.
  - unfold log_record. stepM. cbn [snd]. leaf_winding.
Qed.

Lemma step_keeps_winding e st :
  winding_down A st -> winding_down A (step e st).
Proof.
  destruct e; simpl; apply keeps_elim;
    try (keeps_all leaf_winding).
  - unfold dataReceived. apply keeps_forM_. intros m. unfold dispatch.
    destruct (cmd m =? "MESSAGE")%string.
    + apply keeps_bind; [apply handleMessage_keeps_winding | intros _; apply keeps_pass].
    + destruct (cmd m =? "CONNECTED")%string;
        [| destruct (cmd m =? "ERROR")%string;
           [| destruct (cmd m =? "RECEIPT")%string ] ];
        try apply keeps_raise; keeps_all leaf_winding.
  - unfold handlerFired. keeps_split; try apply resume_keeps_winding;
      apply keeps_modify; intros ? ?; leaf_winding.
Qed.
End WindingDown.

(** Once the client is disconnecting it stays so, and from then on no
    handler is started: whatever happens, the active-handlers set can only
    shrink. *)
Theorem disconnecting_is_final es st :
  _disconnecting st = true ->
  _disconnecting (run es st) = true /\
  _activeHandlers (run es st) ⊆ _activeHandlers st.
Proof.
  intros Hd.
  assert (H : winding_down (_activeHandlers st) st) by (split; [exact Hd | set_solver]).
  revert H. generalize (_activeHandlers st) as A. revert st Hd.
  induction es as [|e es IH]; intros st Hd A H; [exact H |].
  simpl. apply (step_keeps_winding A e) in H.
  apply (IH (step e st)); [apply H | exact H].
Qed.

(** ** The end of the drain *)

Lemma last_handler_body_keeps d messageId n body_outcome k :
  keeps (fun s => _disconnecting s = true /\
                  _finishedHandlersDeferred s = Some d /\
                  _activeHandlers s = {[ messageId ]} /\
                  disconnects s = n)
    match body_outcome with
    | Failure e =>
        _messageHandlerFailed e (k_messageId k) (k_msg k)
          (errorDestination (k_subscription k))
    | Success =>
        if _isClientAck (k_subscription k) then _ack (k_messageId k) else pass
    end.
Proof.
  assert (Hdisc : forall failure,
            keeps (fun s => _disconnecting s = true /\
                            _finishedHandlersDeferred s = Some d /\
                            _activeHandlers s = {[ messageId ]} /\
                            disconnects s = n) (disconnect failure)).
  { intros failure. apply keeps_intro. intros st (Hd & Hf & Ha & Hn).
    rewrite disconnect_again by exact Hd. destruct failure; simpl; auto. }
  destruct body_outcome;
    unfold _messageHandlerFailed, send, _ack, sendFrame, transport_write, log_record;
    keeps_split; try apply Hdisc;
    apply keeps_modify; intros st (Hd & Hf & Ha & Hn);
    unfold disconnects, written in *; simpl in *;
    rewrite ?List.filter_app; simpl; rewrite ?app_nil_r; auto.
Qed.

(** While the client drains, the completion of the last active handler,
    with whatever outcome, is what sends the DISCONNECT frame and closes
    the transport. *)
Theorem last_handler_completion_disconnects st d messageId k rest outcome :
  _disconnecting st = true ->
  _finishedHandlersDeferred st = Some d ->
  callbacks d = [CallDisconnect] ->
  _activeHandlers st = {[ messageId ]} ->
  take_continuation messageId (suspended st) = Some (k, rest) ->
  let st' := exec (handlerFired messageId outcome) st in
  disconnects st' = S (disconnects st) /\
  last (transport st') = Some LoseConnection /\
  _activeHandlers st' = ∅ /\
  _finishedHandlersDeferred st' = None /\
  fired st' = (fired st ++ [(ident d, Success)])%list.
Proof.
  intros Hd Hf Hcb Ha Hk st'.
  pose proof (take_continuation_id _ _ _ _ Hk) as Hid.
  assert (E : st' = exec (_handleMessage_resume k outcome) (with_suspended rest st)).
  { subst st'. unfold exec, handlerFired. stepM. rewrite Hk.
    unfold inlineCallbacks. stepM. unfold mbind, M_bind.
    now destruct (_handleMessage_resume k outcome _) as [[[]|?] ?]. }
  rewrite E. clear E st'. unfold _handleMessage_resume. rewrite exec_try_finally.
  set (body := match outcome with Success => _ | Failure e => _ end).
  pose proof (last_handler_body_keeps d messageId (disconnects st) outcome k
                (with_suspended rest st)) as Hb.
  fold body in Hb. specialize (Hb (conj Hd (conj Hf (conj Ha eq_refl)))).
  assert (Hfired : fired (exec body (with_suspended rest st)) = fired st).
  { assert (Hk' : keeps (unchanged fired (fired st)) body).
    { subst body. destruct outcome; keeps_all leaf_unchanged. }
    exact (keeps_elim _ _ (with_suspended rest st) Hk' eq_refl). }
  fold (exec body (with_suspended rest st)) in Hb.
  set (st1 := exec body (with_suspended rest st)) in *. clearbody st1.
  destruct Hb as (Hd1 & Hf1 & Ha1 & Hn1).
  assert (Hempty : ({[ messageId ]} : gset string) ∖ {[ messageId ]} = ∅) by set_solver.
  destruct st1; simpl in *; subst. unfold disconnects, written in *. simpl in *.
  run_M. destruct (decide (k_messageId k ∈ {[ k_messageId k ]})) as [_|Hn];
    [| exfalso; apply Hn; now apply elem_of_singleton].
  simpl. rewrite Hempty, idle, Hcb. simpl.
  destruct _disconnectError0; simpl;
    rewrite !List.filter_app, ?length_app, ?last_app; simpl;
    rewrite <- Hn1; repeat split; lia.
Qed.

(** ** The Deferred of [disconnect] *)

Lemma disconnect_effect failure st :
  let st1 := exec (disconnect failure) st in
  _connectedDeferred st1 = _connectedDeferred st /\
  _disconnectedDeferred st1 = _disconnectedDeferred st /\
  fired st1 = fired st /\
  _disconnecting st1 = true /\
  _disconnectError st1 =
    match failure with Some e => Some e | None => _disconnectError st end.
Proof.
  destruct failure; run_M; destruct (_disconnecting st) eqn:Hd; simpl;
    try (repeat split; congruence);
    destruct (bool_decide (_activeHandlers st ≠ ∅)); simpl;
    try (repeat split; congruence);
    destruct (_disconnectError st) eqn:He; simpl; repeat split; congruence.
Qed.

(** On a connected client, [disconnect] returns the "disconnected"
    Deferred.  When the loss of the connection is the next thing the client
    handles after that call, that Deferred fires: with the failure passed
    to [disconnect] if there is one, with success if there is none and no
    disconnect error was on record. *)
Theorem disconnect_then_close st d failure reason :
  _connectedDeferred st = None ->
  _disconnectedDeferred st = Some d ->
  callbacks d = [] ->
  let st1 := exec (disconnect failure) st in
  let st2 := exec (connectionLost reason) st1 in
  (disconnect failure st).1 = Ret (Some d) /\
  (forall e, failure = Some e ->
     fired st2 = (fired st ++ [(ident d, Failure e)])%list) /\
  (failure = None -> _disconnectError st = None ->
     fired st2 = (fired st ++ [(ident d, Success)])%list).
Proof.
  intros Hc Hd Hcb st1 st2.
  destruct (disconnect_effect failure st) as (Hc1 & Hd1 & Hf1 & Hdis1 & He1).
  fold st1 in Hc1, Hd1, Hf1, Hdis1, He1.
  rewrite Hc in Hc1. rewrite Hd in Hd1.
  destruct (connectionLost_resolves_disconnected st1 d reason Hc1 Hd1 Hcb)
    as (_ & Hfail & Hok & _).
  fold st2 in Hfail, Hok. split; [| split].
  - rewrite disconnect_returns_slot. fold st1. now rewrite Hd1.
  - intros e ->. rewrite (Hfail e Hdis1 He1). now rewrite Hf1.
  - intros -> Hnone. rewrite He1 in *. rewrite (Hok Hdis1 Hnone). now rewrite Hf1.
Qed.

(** ** From [connect] to CONNECTED *)

Lemma fresh_ident_unresolved n (l : list (nat * Outcome)) :
  Forall (fun p : nat * Outcome => p.1 < n) l ->
  List.filter (fun p : nat * Outcome => Nat.eqb p.1 n) l = [].
Proof.
  induction 1 as [|p l Hp _ IH]; [reflexivity |].
  simpl. destruct (Nat.eqb_spec p.1 n); [lia | exact IH].
Qed.

(** [connect] on a client whose fired Deferreds are all older than the
    next one, followed by a CONNECTED frame: the Deferred that [connect]
    returned has fired with success, exactly once, the connect timeout is
    cancelled, and [disconnect] now returns a Deferred. *)
Theorem connect_then_connected st login passcode timeout msg failure :
  fired_below_next st ->
  let d := {| ident := nextDeferred st; callbacks := [] |} in
  let st1 := exec (connect login passcode timeout) st in
  let st2 := exec (_handleConnected msg) st1 in
  (connect login passcode timeout st).1 = Ret d /\
  (_handleConnected msg st1).1 = Ret tt /\
  resolved d st2 = [Success] /\
  _connectTimeoutDelayedCall st2 = None /\
  (disconnect failure st2).1 =
    Ret (Some {| ident := S (nextDeferred st); callbacks := [] |}).
Proof.
  intros Hbelow d st1 st2.
  assert (H1 : (connect login passcode timeout st).1 = Ret d /\
               _connectedDeferred st1 = Some d /\
               fired st1 = fired st /\
               nextDeferred st1 = S (nextDeferred st)).
  { subst st1 d. destruct timeout; run_M; auto. }
  destruct H1 as (Hr & Hd1 & Hf1 & Hn1). split; [exact Hr |].
  destruct (handleConnected_pending msg d st1 Hd1 eq_refl) as (s & subs & t & Hc).
  assert (E : st2 = (_handleConnected msg st1).2) by reflexivity.
  rewrite Hc in E |- *. cbn [fst snd] in E. clearbody st1 st2. subst st2.
  split; [reflexivity |]. split; [| split].
  - unfold resolved. cbn [fired with_session with_subscriptions with_transport
                          with_connectedDeferred with_fired].
    rewrite Hf1, List.filter_app, map_app. simpl. rewrite Nat.eqb_refl. simpl.
    now rewrite (fresh_ident_unresolved _ _ Hbelow).
  - reflexivity.
  - rewrite disconnect_returns_slot.
    match goal with
    | |- context [exec (disconnect failure) ?s0] =>
        destruct (disconnect_effect failure s0) as (_ & Hdd & _)
    end.
    rewrite Hdd. simpl. now rewrite Hn1.
Qed.

(** ** Subscribing and unsubscribing *)

Lemma session_get_put tok e l : StompSession.get tok (StompSession.put tok e l) = Some e.
Proof.
  induction l as [|[tok' e'] l IH]; simpl.
  - now rewrite decide_True.
  - destruct (decide (tok' = tok)) as [->|Hne]; simpl.
    + now rewrite decide_True.
    + now rewrite decide_False.
Qed.

(** What [subscribe] does, in full: it returns the token of the frame the
    Session built, registers under it the handler with the ack mode of the
    frame and the error destination of the keyword arguments, records the
    subscription in the Session and writes the frame. *)
Lemma subscribe_result dest h hdrs kwargs st :
  exists i f s,
    let tok := (dest, i) in
    let sub := {| destination := dest; handler := h;
                  ack := default DEFAULT_ACK_MODE (default ∅ hdrs !! StompSpec.ACK_HEADER);
                  errorDestination := kwargs !! "errorDestination" |} in
    subscribe dest h hdrs kwargs st =
      (Ret tok, with_transport (transport st ++ [Write f])
                  (with_subscriptions (<[ tok := sub ]> (_subscriptions st))
                     (with_session s st))) /\
    cmd f = "SUBSCRIBE" /\
    StompSession.token (headers f) = Some tok /\
    headers f !! StompSpec.ACK_HEADER = Some (ack sub) /\
    is_Some (StompSession.get tok (StompSession.subscriptions s)).
Proof.
  unfold subscribe. stepM. unfold StompSession.subscribe.
  set (h0 := <[StompSpec.DESTINATION_HEADER:=dest]> (default ∅ hdrs)).
  assert (Hack0 : h0 !! StompSpec.ACK_HEADER = default ∅ hdrs !! StompSpec.ACK_HEADER).
  { subst h0. now rewrite lookup_insert_ne by discriminate. }
  assert (Hdest0 : h0 !! StompSpec.DESTINATION_HEADER = Some dest).
  { subst h0. apply lookup_insert_eq. }
  destruct (h0 !! StompSpec.ID_HEADER) as [i|] eqn:Hid.
  - stepM. unfold StompSession.token. cbn [headers cmd body commands.subscribe].
    rewrite !lookup_insert_ne by discriminate. rewrite Hdest0, Hid.
    unfold sendFrame, transport_write. stepM. rewrite Hack0.
    eexists i, _, _. split; [reflexivity |].
    cbn [headers cmd ack]. split; [reflexivity |]. split.
    + rewrite !lookup_insert_ne by discriminate. now rewrite Hdest0, Hid.
    + split; [apply lookup_insert_eq |].
      exact (ex_intro _ _ (session_get_put (dest, i) _ _)).
  - stepM. unfold StompSession.token. cbn [headers cmd body commands.subscribe].
    set (h1 := <[StompSpec.ID_HEADER:=pretty (StompSession.nextSubscription (_session st))]> h0).
    assert (Hack1 : h1 !! StompSpec.ACK_HEADER = default ∅ hdrs !! StompSpec.ACK_HEADER).
    { subst h1. now rewrite lookup_insert_ne by discriminate. }
    assert (Hdest1 : h1 !! StompSpec.DESTINATION_HEADER = Some dest).
    { subst h1. now rewrite lookup_insert_ne by discriminate. }
    assert (Hid1 : h1 !! StompSpec.ID_HEADER =
                     Some (pretty (StompSession.nextSubscription (_session st)))).
    { subst h1. apply lookup_insert_eq. }
    rewrite !(lookup_insert_ne h1) by discriminate. rewrite Hdest1, Hid1.
    unfold sendFrame, transport_write. stepM. rewrite Hack1.
    eexists (pretty (StompSession.nextSubscription (_session st))), _, _.
    split; [reflexivity |].
    cbn [headers cmd ack]. split; [reflexivity |]. split.
    + rewrite !(lookup_insert_ne h1) by discriminate. now rewrite Hdest1, Hid1.
    + split; [apply lookup_insert_eq |].
      exact (ex_intro _ _ (session_get_put
               (dest, pretty (StompSession.nextSubscription (_session st))) _ _)).
Qed.

(** [subscribe] never raises.  It registers the handler under the token it
    returns, with the ack mode of the [ack] header, or [client] when the
    caller gave none, and with the [errorDestination] keyword argument; it
    writes exactly one frame, the SUBSCRIBE frame carrying that ack mode. *)
Theorem subscribe_registers dest h hdrs kwargs st :
  let st' := exec (subscribe dest h hdrs kwargs) st in
  let sub := {| destination := dest; handler := h;
                ack := default "client" (default ∅ hdrs !! "ack");
                errorDestination := kwargs !! "errorDestination" |} in
  exists tok f,
    (subscribe dest h hdrs kwargs st).1 = Ret tok /\
    tok.1 = dest /\
    _subscriptions st' !! tok = Some sub /\
    (forall tok', tok' <> tok -> _subscriptions st' !! tok' = _subscriptions st !! tok') /\
    transport st' = (transport st ++ [Write f])%list /\
    cmd f = "SUBSCRIBE" /\
    StompSession.token (headers f) = Some tok /\
    headers f !! "ack" = Some (ack sub).
Proof.
  intros st' sub. subst st'. unfold exec.
  destruct (subscribe_result dest h hdrs kwargs st) as (i & f & s & Hs & Hc & Ht & Ha & _).
  cbv zeta in Hs, Ht, Ha. rewrite Hs. exists (dest, i), f. cbn [fst snd].
  split; [reflexivity |]. split; [reflexivity |]. split; [apply lookup_insert_eq |].
  split; [intros tok' Hne; now apply lookup_insert_ne |].
  split; [reflexivity |]. split; [exact Hc |]. split; [exact Ht | exact Ha].
Qed.

(** After [subscribe], a MESSAGE frame that carries the token of the
    subscription reaches the handler that was subscribed: if the handler
    hands back a Deferred, the dispatch waits for it with the message-id
    active. *)
Theorem subscribed_message_reaches_handler dest h hdrs kwargs st msg messageId tok :
  (subscribe dest h hdrs kwargs st).1 = Ret tok ->
  _disconnecting st = false ->
  headers msg !! StompSpec.MESSAGE_ID_HEADER = Some messageId ->
  StompSession.token (headers msg) = Some tok ->
  messageId ∉ _activeHandlers st ->
  h msg = Defers ->
  let st1 := exec (subscribe dest h hdrs kwargs) st in
  (_handleMessage msg st1).1 = Ret Waiting /\
  _activeHandlers (exec (_handleMessage msg) st1) = {[ messageId ]} ∪ _activeHandlers st /\
  exists sub,
    handler sub = h /\
    suspended (exec (_handleMessage msg) st1) =
      (suspended st ++ [{| k_messageId := messageId; k_msg := msg;
                           k_subscription := sub |}])%list.
Proof.
  intros Hr Hd Hid Htok Hact Hh st1. subst st1. unfold exec.
  destruct (subscribe_result dest h hdrs kwargs st) as (i & f & s & Hs & _).
  cbv zeta in Hs. rewrite Hs in Hr |- *. cbn [fst snd] in *.
  injection Hr as <-.
  unfold _handleMessage, inlineCallbacks, _handleMessage_gen. rewrite Hid. stepM.
  rewrite Htok. cbn [mbind option_bind _subscriptions with_transport with_subscriptions].
  rewrite lookup_insert_eq. stepM.
  cbn [_disconnecting with_transport with_subscriptions with_session]. rewrite Hd.
  unfold _handlerStarted. stepM.
  cbn [_activeHandlers with_transport with_subscriptions with_session].
  destruct (decide (messageId ∈ _activeHandlers st)); [contradiction |].
  stepM. cbn [handler]. rewrite Hh. stepM. cbn [fst snd].
  split; [reflexivity |]. split; [reflexivity |].
  eexists. split; [| reflexivity]. reflexivity.
Qed.

Lemma unsubscribe_known tok sub entry st :
  StompSession.get tok (StompSession.subscriptions (_session st)) = Some entry ->
  _subscriptions st !! tok = Some sub ->
  unsubscribe tok st =
    (Ret tt,
     with_transport (transport st ++ [Write (commands.unsubscribe tok)])
       (with_subscriptions (delete tok (_subscriptions st))
          (with_session
             {| StompSession.subscriptions :=
                  StompSession.remove tok (StompSession.subscriptions (_session st));
                StompSession.nextSubscription :=
                  StompSession.nextSubscription (_session st) |} st))).
Proof.
  intros Hget Hsome. unfold unsubscribe, StompSession.unsubscribe.
  unfold mbind at 1, M_bind, gets. rewrite Hget, token_of_unsubscribe.
  run_M. now rewrite Hsome.
Qed.

(** [unsubscribe] with the token that [subscribe] returned undoes the
    registration without raising: the UNSUBSCRIBE frame follows the
    SUBSCRIBE frame on the wire, the token is no longer registered, and a
    registry that did not have the token before is as it was. *)
Theorem subscribe_unsubscribe_roundtrip dest h hdrs kwargs st :
  let st1 := exec (subscribe dest h hdrs kwargs) st in
  exists tok f,
    (subscribe dest h hdrs kwargs st).1 = Ret tok /\
    (unsubscribe tok st1).1 = Ret tt /\
    let st2 := exec (unsubscribe tok) st1 in
    transport st2 =
      (transport st ++ [Write f; Write (commands.unsubscribe tok)])%list /\
    cmd f = "SUBSCRIBE" /\
    _subscriptions st2 !! tok = None /\
    (_subscriptions st !! tok = None -> _subscriptions st2 = _subscriptions st).
Proof.
  intros st1. subst st1. unfold exec.
  destruct (subscribe_result dest h hdrs kwargs st)
    as (i & f & s & Hs & Hc & _ & _ & [entry Hget]).
  cbv zeta in Hs, Hget. rewrite Hs. exists (dest, i), f. cbn [fst snd].
  split; [reflexivity |].
  erewrite unsubscribe_known; [| exact Hget | apply lookup_insert_eq].
  cbn [fst snd transport _subscriptions with_transport with_subscriptions with_session].
  split; [reflexivity |]. split; [now rewrite <- app_assoc |]. split; [exact Hc |].
  split; [apply lookup_delete_eq |].
  intros Hnone. now rewrite delete_insert_id.
Qed.

(** ** One DISCONNECT frame at most *)

Ltac leaf_single :=
  cbv beta in *;
  match goal with
  | H : single_disconnect _ |- _ => destruct H as ([Hpc Hpd] & Hle & Hzero)
  end;
  unfold single_disconnect, user_deferreds_plain, pending_disconnects, disconnects,
    written in *;
  simpl in *; rewrite ?List.filter_app in *; simpl in *; rewrite ?app_nil_r in *;
  repeat split;
  solve [ assumption | exact I | reflexivity | lia
        | let Hflag := fresh in intros Hflag; first [discriminate Hflag | auto] ].

Lemma sendFrame_keeps_single f :
  String.eqb (cmd f) "DISCONNECT" = false ->
  keeps single_disconnect (sendFrame f).
Proof.
  intros Hf. unfold sendFrame, transport_write. apply keeps_modify.
  intros st ([Hpc Hpd] & Hle & Hzero).
  unfold single_disconnect, user_deferreds_plain, pending_disconnects, disconnects,
    written in *.
  simpl. rewrite List.filter_app. simpl. rewrite Hf, app_nil_r. auto.
Qed.

Lemma disconnect_keeps_single failure :
  keeps single_disconnect (disconnect failure).
Proof.
  apply keeps_intro. intros st ([Hpc Hpd] & Hle & Hzero).
  unfold single_disconnect, user_deferreds_plain, pending_disconnects, disconnects,
    written in *.
  destruct (_disconnecting st) eqn:Hd.
  - rewrite disconnect_again by exact Hd. destruct failure; simpl; rewrite ?Hd; auto.
  - specialize (Hzero eq_refl).
    destruct failure; run_M; rewrite Hd; simpl;
      (destruct (bool_decide (_activeHandlers st ≠ ∅)); simpl;
       [ repeat split; auto; try lia; try discriminate
       | try destruct (_disconnectError st); simpl;
         rewrite ?List.filter_app, ?length_app; simpl;
         repeat split; auto; try lia; try discriminate ]).
Qed.

Lemma finish_keeps_single : keeps single_disconnect _finish.
Proof.
  apply keeps_intro. intros st H. unfold _finish, _handlersInProgress. stepM.
  destruct (_finishedHandlersDeferred st) as [[i cbs]|] eqn:Hslot; [| exact H].
  destruct (bool_decide (_activeHandlers st ≠ ∅)); [exact H |].
  destruct H as ([Hpc Hpd] & Hle & Hzero).
  unfold single_disconnect, user_deferreds_plain, pending_disconnects, disconnects,
    written in *.
  rewrite Hslot in *. simpl in Hle, Hzero.
  destruct cbs as [|[] [|? ?]]; simpl in Hle, Hzero; [| | lia].
  - run_M. repeat split; auto; try lia.
  - assert (Hnone : length (List.filter (is_cmd "DISCONNECT") (transport st)) = 0).
    { revert Hle. generalize (length (List.filter (is_cmd "DISCONNECT") (transport st))).
      intros n Hn. lia. }
    destruct (_disconnecting st) eqn:Hd; [| specialize (Hzero eq_refl); lia].
    run_M. destruct (_disconnectError st); simpl;
      rewrite ?List.filter_app, ?length_app; simpl;
      (repeat split; auto; try lia; try (rewrite Hd; discriminate)).
Qed.

Lemma messageHandlerFailed_keeps_single e messageId msg errDest :
  keeps single_disconnect (_messageHandlerFailed e messageId msg errDest).
Proof.
  unfold _messageHandlerFailed, send, _ack, log_record. keeps_split;
    try apply disconnect_keeps_single;
    try (apply sendFrame_keeps_single; reflexivity);
    apply keeps_modify; intros ? ?; leaf_single.
Qed.

Lemma resume_keeps_single k outcome :
  keeps single_disconnect (_handleMessage_resume k outcome).
Proof.
  unfold _handleMessage_resume, _postProcessMessage, _handlerFinished, _ack.
  keeps_split;
    try apply messageHandlerFailed_keeps_single;
    try (apply sendFrame_keeps_single; reflexivity);
    try apply finish_keeps_single;
    apply keeps_modify; intros ? ?; leaf_single.
Qed.

Lemma handleMessage_keeps_single msg : keeps single_disconnect (_handleMessage msg).
Proof.
  unfold _handleMessage, _handleMessage_gen, _handlerStarted, log_record.
  keeps_split; try apply resume_keeps_single;
    apply keeps_modify; intros ? ?; leaf_single.
Qed.

Lemma subscribe_keeps_single dest h hdrs kwargs :
  keeps single_disconnect (subscribe dest h hdrs kwargs).
Proof.
  apply keeps_intro. intros st ([Hpc Hpd] & Hle & Hzero).
  destruct (subscribe_effect dest h hdrs kwargs st) as (tok & s & subs & f & Hf & ->).
  unfold single_disconnect, user_deferreds_plain, pending_disconnects, disconnects,
    written in *.
  simpl. rewrite List.filter_app. simpl. rewrite Hf. simpl. rewrite app_nil_r. auto.
Qed.

Lemma unsubscribe_keeps_single tok : keeps single_disconnect (unsubscribe tok).
Proof.
  apply keeps_intro. intros st H. unfold unsubscribe, StompSession.unsubscribe. stepM.
  destruct (StompSession.get tok _); [| exact H].
  stepM. rewrite token_of_unsubscribe. stepM. cbn [_subscriptions with_session].
  destruct (_subscriptions st !! tok).
  - unfold sendFrame, transport_write. stepM. cbn [snd]. leaf_single.
  - unfold log_record. cbn [modify snd]. leaf_single.
Qed.

Lemma handleConnected_keeps_single msg : keeps single_disconnect (_handleConnected msg).
Proof.
  unfold _handleConnected, _cancelConnectTimeout, _replay.
  apply keeps_bind; [keeps_split; apply keeps_modify; intros ? ?; leaf_single |].
  intros _. apply keeps_bind_newDeferred; intros n;
    [apply keeps_modify; intros ? ?; leaf_single |].
  apply keeps_bind; [apply keeps_modify; intros ? ?; leaf_single |].
  intros _. apply keeps_bind.
  { keeps_split; try apply subscribe_keeps_single;
      apply keeps_modify; intros ? ?; leaf_single. }
  intros _. apply keeps_bind_gets. intros st H.
  destruct (_connectedDeferred st) as [cd|] eqn:Hcd; [| exact H].
  assert (Hcb : callbacks cd = []).
  { destruct H as ([Hpc _] & _). now rewrite Hcd in Hpc. }
  refine (keeps_elim single_disconnect _ st _ H). clear H.
  apply keeps_bind.
  - apply fire_plain_keeps; [exact Hcb |]. intros ? ?; leaf_single.
  - intros _. apply keeps_modify; intros ? ?; leaf_single.
Qed.

Lemma handleError_keeps_single msg : keeps single_disconnect (_handleError msg).
Proof.
  unfold _handleError, log_record, transport_loseConnection. keeps_split;
    try apply disconnect_keeps_single;
    apply keeps_modify; intros ? ?; leaf_single.
Qed.

Lemma connectionLost_keeps_single reason :
  keeps single_disconnect (connectionLost reason).
Proof.
  unfold connectionLost, _cancelConnectTimeout, _handleConnectionLostConnect,
    _handleConnectionLostDisconnect, log_record.
  apply keeps_bind; [keeps_split; apply keeps_modify; intros ? ?; leaf_single |].
  intros _. apply keeps_bind.
  - apply keeps_bind_gets. intros st H.
    destruct (_connectedDeferred st) as [d|] eqn:Hslot; [| exact H].
    assert (Hcb : callbacks d = []).
    { destruct H as ([Hpc _] & _). now rewrite Hslot in Hpc. }
    refine (keeps_elim single_disconnect _ st _ H). clear H.
    keeps_split;
      try (apply fire_plain_keeps; [exact Hcb |]; intros ? ?; leaf_single);
      apply keeps_modify; intros ? ?; leaf_single.
  - intros _. apply keeps_bind_gets. intros st H.
    destruct (_disconnectedDeferred st) as [d|] eqn:Hslot; [| exact H].
    assert (Hcb : callbacks d = []).
    { destruct H as ([_ Hpd] & _). now rewrite Hslot in Hpd. }
    refine (keeps_elim single_disconnect _ st _ H). clear H.
    keeps_split;
      try (apply fire_plain_keeps; [exact Hcb |]; intros ? ?; leaf_single);
      apply keeps_modify; intros ? ?; leaf_single.
Qed.

Lemma step_keeps_single e st : single_disconnect st -> single_disconnect (step e st).
Proof.
  destruct e; simpl; apply keeps_elim.
  - unfold connect, _connect. keeps_split;
      try (apply sendFrame_keeps_single; reflexivity);
      apply keeps_modify; intros ? ?; leaf_single.
  - apply disconnect_keeps_single.
  - apply subscribe_keeps_single.
  - apply unsubscribe_keeps_single.
  - unfold send. apply sendFrame_keeps_single. reflexivity.
  - unfold dataReceived, dispatch, _handleReceipt, log_record.
    apply keeps_forM_. intros m. keeps_split;
      try apply handleMessage_keeps_single;
      try apply handleConnected_keeps_single;
      try apply handleError_keeps_single;
      apply keeps_modify; intros ? ?; leaf_single.
  - apply connectionLost_keeps_single.
  - unfold timeoutFired, _connectTimeout, log_record, transport_loseConnection.
    keeps_split; apply keeps_modify; intros ? ?; leaf_single.
  - unfold handlerFired. keeps_split; try apply resume_keeps_single;
      apply keeps_modify; intros ? ?; leaf_single.
Qed.

(** Whatever the client goes through after [__init__], it writes at most
    one DISCONNECT frame, and none as long as [disconnect] has not been
    called or triggered. *)
Theorem at_most_one_disconnect_frame session always es :
  let st := run es (__init__ session always) in
  disconnects st <= 1 /\ (_disconnecting st = false -> disconnects st = 0).
Proof.
  assert (H : single_disconnect (__init__ session always)).
  { repeat split; simpl; auto. }
  assert (G : single_disconnect (run es (__init__ session always))).
  { revert H. generalize (__init__ session always).
    induction es as [|e es IH]; intros st H; [exact H |].
    apply IH. now apply step_keeps_single. }
  destruct G as (_ & Hle & Hzero). simpl. split; [lia |].
  intros Hd. specialize (Hzero Hd). lia.
Qed.

(** ** What a dispatch can fail with *)

Lemma finish_returns st : (_finish st).1 = Ret tt.
Proof.
  unfold _finish, _handlersInProgress. stepM.
  destruct (_finishedHandlersDeferred st) as [d|]; [| reflexivity].
  destruct (bool_decide (_activeHandlers st ≠ ∅)); [reflexivity |].
  destruct (fire_shape d Success st) as (s & t & Hf).
  erewrite bind_ret by exact Hf. reflexivity.
Qed.

Lemma messageHandlerFailed_returns e messageId msg errDest st :
  (_messageHandlerFailed e messageId msg errDest st).1 = Ret tt.
Proof.
  unfold _messageHandlerFailed, send, _ack, sendFrame, transport_write, log_record.
  stepM. destruct (truthy errDest); stepM;
    try destruct (negb _); try reflexivity;
    unfold mbind, M_bind;
    match goal with
    | |- context [disconnect ?f ?s] =>
        pose proof (disconnect_returns_slot f s) as H;
        destruct (disconnect f s) as [[?|?] ?]; [reflexivity | discriminate H]
    end.
Qed.

(** With its message-id active, the generator runs from its [yield] to its
    end without raising, whatever the outcome of the handler. *)
Lemma resume_returns k outcome st :
  k_messageId k ∈ _activeHandlers st ->
  (_handleMessage_resume k outcome st).1 = Ret tt.
Proof.
  intros Hin. unfold _handleMessage_resume, try_finally.
  set (body := match outcome with Success => _ | Failure e => _ end).
  assert (Hr : (body st).1 = Ret tt).
  { subst body. destruct outcome.
    - destruct (_isClientAck _); reflexivity.
    - apply messageHandlerFailed_returns. }
  assert (Hb : keeps (unchanged _activeHandlers (_activeHandlers st)) body).
  { subst body. destruct outcome; keeps_all leaf_unchanged. }
  apply (keeps_elim _ _ st) in Hb; [| reflexivity]. unfold exec, unchanged in Hb.
  destruct (body st) as [r st1]. simpl in Hr, Hb. subst r.
  unfold _postProcessMessage, _handlerFinished. stepM. rewrite Hb.
  destruct (decide (k_messageId k ∈ _activeHandlers st)); [| contradiction].
  stepM.
  match goal with
  | |- context [_finish ?s] =>
      pose proof (finish_returns s) as Hf; destruct (_finish s) as [[[]|?] ?]
  end; [reflexivity | discriminate Hf].
Qed.

(** The Deferred of a dispatch fails in two cases only: the frame has no
    message-id header, or its message-id is already active.  What a handler
    raises is dealt with inside the dispatch and never becomes its
    failure. *)
Theorem dispatch_failures st msg e :
  (_handleMessage msg st).1 = Ret (Errored e) ->
  (headers msg !! StompSpec.MESSAGE_ID_HEADER = None /\
   e = KeyError StompSpec.MESSAGE_ID_HEADER) \/
  (exists messageId,
     headers msg !! StompSpec.MESSAGE_ID_HEADER = Some messageId /\
     messageId ∈ _activeHandlers st /\
     e = StompProtocolError (DuplicateMessage messageId)).
Proof.
  unfold _handleMessage, inlineCallbacks, _handleMessage_gen.
  destruct (headers msg !! StompSpec.MESSAGE_ID_HEADER) as [messageId|] eqn:Hid.
  - stepM.
    destruct (StompSession.token (headers msg) ≫= _) as [sub|];
      [| unfold log_record; stepM; discriminate].
    stepM. destruct (_disconnecting st); [discriminate |].
    unfold _handlerStarted. stepM.
    destruct (decide (messageId ∈ _activeHandlers st)) as [Hin|Hin].
    + stepM. simpl. intros [= <-]. right. exists messageId. auto.
    + stepM.
      destruct (handler sub msg); stepM; try discriminate;
        unfold mbind, M_bind;
        match goal with
        | |- context [_handleMessage_resume ?k ?o ?s] =>
            pose proof (resume_returns k o s) as Hr;
            destruct (_handleMessage_resume k o s) as [[[]|?] ?]
        end;
        try discriminate;
        (simpl in Hr; specialize (Hr ltac:(set_solver)); discriminate Hr).
  - simpl. intros [= <-]. now left.
Qed.

(** ** More on handlers that raise *)

Lemma disconnect_keeps_written name x failure :
  name <> "DISCONNECT" ->
  keeps (unchanged (written name) x) (disconnect failure).
Proof.
  intros Hname.
  assert (Hn : String.eqb "DISCONNECT" name = false).
  { apply String.eqb_neq. congruence. }
  unfold_methods; keeps_split; apply keeps_modify; intros ? ?;
    unfold unchanged, written in *; simpl in *;
    rewrite ?List.filter_app; simpl; rewrite ?Hn, ?app_nil_r; assumption.
Qed.

(** With an error destination and always-disconnect enabled, a handler
    that raises still has its message forwarded (the persistent clone, once)
    and acknowledged (once) before the failure becomes the disconnect
    error and the client starts to disconnect. *)
Theorem failure_forwarded_before_disconnect msg messageId sub e dest st st' :
  handler_completes (Failure e) msg messageId sub st st' ->
  errorDestination sub = Some dest -> dest <> "" ->
  _alwaysDisconnectOnUnhandledMsg st = true ->
  sends st' =
    (sends st ++
       [Write (commands.send dest (body msg)
                 (Some (<[ "persistent" := "true" ]> (headers msg))))])%list /\
  acks st' = (acks st ++ [Write (ackFrame messageId)])%list /\
  _disconnectError st' = Some e /\
  _disconnecting st' = true.
Proof.
  intros H Hdest Hne Halways.
  apply handler_completes_resume in H as (st0 & -> & Ht & _ & Hd & He & Ha).
  unfold _handleMessage_resume. rewrite exec_try_finally.
  cbn [k_subscription k_messageId k_msg].
  assert (Htruthy : truthy (errorDestination sub) = true).
  { rewrite Hdest. simpl. apply negb_true_iff. now apply String.eqb_neq. }
  set (st1 := exec (_messageHandlerFailed e messageId msg (errorDestination sub)) st0).
  assert (Hst1 : written "SEND" st1 =
                   (written "SEND" st ++
                      [Write (commands.send dest (body msg)
                                (Some (<[ "persistent" := "true" ]> (headers msg))))])%list /\
                 written "ACK" st1 = (written "ACK" st ++ [Write (ackFrame messageId)])%list /\
                 _disconnectError st1 = Some e /\ _disconnecting st1 = true).
  { subst st1. unfold exec, _messageHandlerFailed, log_record. stepM.
    cbn [_alwaysDisconnectOnUnhandledMsg with_log].
    rewrite Htruthy, Ha, Halways, Hdest.
    unfold send, _ack, sendFrame, transport_write. stepM.
    change (negb true) with false. cbv iota. rewrite then_pass.
    match goal with
    | |- context [exec (disconnect (Some e)) ?s] =>
        pose proof (disconnect_failure_recorded e s) as [He1 Hd1];
        pose proof (keeps_elim _ _ s
                      (disconnect_keeps_written "SEND" _ (Some e) ltac:(discriminate))
                      eq_refl) as Hs;
        pose proof (keeps_elim _ _ s
                      (disconnect_keeps_written "ACK" _ (Some e) ltac:(discriminate))
                      eq_refl) as Hk
    end.
    unfold unchanged in Hs, Hk. rewrite Hs, Hk. split; [| split; [| split]];
      try assumption;
      unfold written; simpl; rewrite !List.filter_app, Ht; simpl;
      now rewrite ?app_nil_r. }
  clearbody st1. destruct Hst1 as (Hs1 & Hk1 & He1 & Hd1).
  split; [| split; [| split]].
  - apply postProcess_written; [discriminate | exact Hs1].
  - apply postProcess_written; [discriminate | exact Hk1].
  - exact (keeps_elim _ _ st1 (postProcess_keeps_disconnectError _ messageId) He1).
  - exact (keeps_elim _ _ st1 (postProcess_keeps_disconnecting _ messageId) Hd1).
Qed.

(** A handler raises within the dispatch, no error destination is
    configured, the client is not disconnecting and no other handler is
    active: the DISCONNECT frame goes out and the transport is closed
    before the dispatch returns, the exception is the disconnect error, and
    the Session keeps its subscriptions. *)
Theorem unrecovered_failure_disconnects_at_once st msg messageId sub e :
  headers msg !! StompSpec.MESSAGE_ID_HEADER = Some messageId ->
  matching msg st = Some sub ->
  _disconnecting st = false ->
  _activeHandlers st = ∅ ->
  handler sub msg = Raises e ->
  truthy (errorDestination sub) = false ->
  let st' := exec (_handleMessage msg) st in
  (_handleMessage msg st).1 = Ret Fired /\
  transport st' = (transport st ++ [Write commands.disconnect; LoseConnection])%list /\
  _disconnectError st' = Some e /\
  _disconnecting st' = true /\
  _activeHandlers st' = ∅ /\
  _session st' = _session st.
Proof.
  intros Hid Hm Hd Ha Hh Ht. unfold matching, mbind in Hm.
  assert (H1 : bool_decide (({[ messageId ]} ∪ ∅ : gset string) ≠ ∅) = true).
  { apply bool_decide_eq_true. set_solver. }
  assert (H2 : (({[ messageId ]} ∪ ∅) ∖ {[ messageId ]} : gset string) = ∅) by set_solver.
  destruct st; simpl in *; subst.
  run_M. rewrite Hid. simpl. unfold mbind. rewrite Hm. simpl.
  destruct (decide (messageId ∈ (∅ : gset string))) as [Hin|_]; [set_solver |].
  simpl. rewrite Hh. simpl. rewrite Ht. simpl. rewrite H1. simpl.
  destruct (decide (messageId ∈ ({[ messageId ]} ∪ ∅ : gset string))) as [_|Hn];
    [| exfalso; apply Hn; set_solver].
  simpl. rewrite H2, idle. simpl. rewrite <- app_assoc. simpl.
  repeat split.
Qed.

(** * The further properties on the example session *)

Import Example2.

Lemma dataReceived_unknown_command_example :
  dataReceived ([receiptFrame] ++ bogusFrame :: [connectedFrame]) connecting =
    (Raise (StompFrameError bogusFrame), exec (dataReceived [receiptFrame]) connecting).
Proof.
  apply (dataReceived_unknown_command [receiptFrame] bogusFrame [connectedFrame]
           connecting (exec (dataReceived [receiptFrame]) connecting)).
  - intros [H|[H|[H|[H|[]]]]]; discriminate H.
  - vm_compute. reflexivity.
Defined.

Lemma dataReceived_messages_never_raise_example :
  (dataReceived [messageFrame "m1" "bad"; messageFrame "m1" "slow";
                 messageFrame "m1" "again"; strayFrame] subscribed).1 = Ret tt.
Proof.
  apply dataReceived_messages_never_raise. repeat constructor.
Defined.

Lemma error_while_connecting_example :
  let st1 := exec (_handleError errorFrame) connecting in
  transport st1 = (transport connecting ++ [LoseConnection])%list /\
  _disconnecting st1 = _disconnecting connecting /\
  resolved d0 (exec (connectionLost ConnectionDone) st1) =
    [Failure (StompProtocolError (ErrorWhileConnecting errorFrame))].
Proof.
  apply (error_while_connecting_fails_connect connecting d0 errorFrame ConnectionDone).
  - vm_compute. reflexivity.
  - split; vm_compute; [reflexivity | exact I].
  - vm_compute. reflexivity.
  - vm_compute. discriminate.
Defined.

Lemma unexpected_ack_error_ignored_example :
  _handleError unexpectedAckFrame subscribed =
    (Ret tt, with_log (log subscribed ++ [InfoReceivedError unexpectedAckFrame]) subscribed).
Proof.
  apply (unexpected_ack_error_ignored subscribed unexpectedAckFrame);
    vm_compute; reflexivity.
Defined.


Lemma connectionLost_unexpected_example :
  fired (exec (connectionLost ConnectionLost) subscribed) =
    (fired subscribed ++ [(ident d1, Failure StompConnectionError)])%list.
Proof.
  refine (proj1 (connectionLost_resolves_disconnected subscribed d1 ConnectionLost
                   _ _ _) _);
    vm_compute; reflexivity.
Defined.

Lemma connectionLost_before_connected_example :
  let st' := exec (connectionLost ConnectionLost) waiting in
  fired st' = (fired waiting ++ [(ident d0, Failure StompConnectionError)])%list /\
  log st' = (log waiting ++ [ErrorLostBeforeConnected])%list /\
  _connectedDeferred st' = None /\
  _connectTimeoutDelayedCall st' = None.
Proof.
  apply (connectionLost_before_connected waiting d0 ConnectionLost);
    vm_compute; reflexivity.
Defined.

Lemma handler_completion_deactivates_example :
  _activeHandlers (exec (handlerFired "m1" (Failure (HandlerError "late"))) working) =
    _activeHandlers working ∖ {[ "m1" ]}.
Proof.
  apply (handler_completion_deactivates (Failure (HandlerError "late"))
           (messageFrame "m1" "slow") "m1" (subscriptionA None) working).
  right. exists []. split; vm_compute; reflexivity.
Defined.

Lemma disconnecting_is_final_example :
  let es := [EDataReceived [messageFrame "m5" "slow"]; EHandlerFired "m1" Success;
             EConnect "user" "secret" None; EDataReceived [connectedFrame]] in
  let st := drainingAfter (HandlerError "boom") in
  _disconnecting (run es st) = true /\
  _activeHandlers (run es st) ⊆ _activeHandlers st.
Proof.
  apply disconnecting_is_final. vm_compute. reflexivity.
Defined.

Lemma last_handler_completion_disconnects_example :
  let st := drainingAfter (HandlerError "boom") in
  let st' := exec (handlerFired "m1" Success) st in
  disconnects st' = S (disconnects st) /\
  last (transport st') = Some LoseConnection /\
  _activeHandlers st' = ∅ /\
  _finishedHandlersDeferred st' = None /\
  fired st' = (fired st ++ [(ident drainDeferred, Success)])%list.
Proof.
  apply (last_handler_completion_disconnects (drainingAfter (HandlerError "boom"))
           drainDeferred "m1" parkedM1 [] Success);
    vm_compute; reflexivity.
Defined.

Lemma disconnect_then_close_example :
  let st1 := exec (disconnect (Some (HandlerError "stop"))) subscribed in
  let st2 := exec (connectionLost ConnectionDone) st1 in
  (disconnect (Some (HandlerError "stop")) subscribed).1 = Ret (Some d1) /\
  fired st2 = (fired subscribed ++ [(ident d1, Failure (HandlerError "stop"))])%list.
Proof.
  destruct (disconnect_then_close subscribed d1 (Some (HandlerError "stop")) ConnectionDone)
    as (Hr & Hf & _); try (vm_compute; reflexivity).
  split; [exact Hr | exact (Hf _ eq_refl)].
Defined.

Lemma connect_then_connected_example :
  let d := {| ident := nextDeferred client0; callbacks := [] |} in
  let st1 := exec (connect "user" "secret" (Some 5%Z)) client0 in
  let st2 := exec (_handleConnected connectedFrame) st1 in
  (connect "user" "secret" (Some 5%Z) client0).1 = Ret d /\
  (_handleConnected connectedFrame st1).1 = Ret tt /\
  resolved d st2 = [Success] /\
  _connectTimeoutDelayedCall st2 = None /\
  (disconnect None st2).1 =
    Ret (Some {| ident := S (nextDeferred client0); callbacks := [] |}).
Proof.
  apply (connect_then_connected client0 "user" "secret" (Some 5%Z) connectedFrame None).
  constructor.
Defined.

Lemma subscribed_message_reaches_handler_example :
  let st1 := exec (subscribe "/queue/a" worker None ∅) connected in
  (_handleMessage (messageFrame "m1" "slow") st1).1 = Ret Waiting /\
  _activeHandlers (exec (_handleMessage (messageFrame "m1" "slow")) st1) =
    {[ "m1" ]} ∪ _activeHandlers connected /\
  exists sub,
    handler sub = worker /\
    suspended (exec (_handleMessage (messageFrame "m1" "slow")) st1) =
      (suspended connected ++
         [{| k_messageId := "m1"; k_msg := messageFrame "m1" "slow";
             k_subscription := sub |}])%list.
Proof.
  apply (subscribed_message_reaches_handler "/queue/a" worker None ∅ connected
           (messageFrame "m1" "slow") "m1" tokenA);
    try (vm_compute; reflexivity).
  assert (H : _activeHandlers connected = ∅) by (vm_compute; reflexivity).
  rewrite H. apply not_elem_of_empty.
Defined.

Lemma dispatch_failures_example :
  (headers (messageFrame "m1" "again") !! StompSpec.MESSAGE_ID_HEADER = None /\
   StompProtocolError (DuplicateMessage "m1") = KeyError StompSpec.MESSAGE_ID_HEADER) \/
  (exists messageId,
     headers (messageFrame "m1" "again") !! StompSpec.MESSAGE_ID_HEADER = Some messageId /\
     messageId ∈ _activeHandlers working /\
     StompProtocolError (DuplicateMessage "m1") =
       StompProtocolError (DuplicateMessage messageId)).
Proof.
  apply (dispatch_failures working (messageFrame "m1" "again")
           (StompProtocolError (DuplicateMessage "m1"))).
  vm_compute. reflexivity.
Defined.

Lemma failure_forwarded_before_disconnect_example :
  let msg := messageFrame "m3" "bad" in
  let st' := exec (_handleMessage msg) subscribedAlways in
  sends st' =
    (sends subscribedAlways ++
       [Write (commands.send "/queue/err" (body msg)
                 (Some (<[ "persistent" := "true" ]> (headers msg))))])%list /\
  acks st' = (acks subscribedAlways ++ [Write (ackFrame "m3")])%list /\
  _disconnectError st' = Some (HandlerError "boom") /\
  _disconnecting st' = true.
Proof.
  apply (failure_forwarded_before_disconnect (messageFrame "m3" "bad") "m3"
           (subscriptionA (Some "/queue/err")) (HandlerError "boom") "/queue/err"
           subscribedAlways).
  - left. repeat split; try (vm_compute; reflexivity).
    assert (H : _activeHandlers subscribedAlways = ∅) by (vm_compute; reflexivity).
    rewrite H. apply not_elem_of_empty.
  - reflexivity.
  - discriminate.
  - vm_compute. reflexivity.
Defined.

Lemma unrecovered_failure_disconnects_at_once_example :
  let msg := messageFrame "m3" "bad" in
  let st' := exec (_handleMessage msg) subscribed in
  (_handleMessage msg subscribed).1 = Ret Fired /\
  transport st' =
    (transport subscribed ++ [Write commands.disconnect; LoseConnection])%list /\
  _disconnectError st' = Some (HandlerError "boom") /\
  _disconnecting st' = true /\
  _activeHandlers st' = ∅ /\
  _session st' = _session subscribed.
Proof.
  apply (unrecovered_failure_disconnects_at_once subscribed (messageFrame "m3" "bad")
           "m3" (subscriptionA None) (HandlerError "boom"));
    vm_compute; reflexivity.
Defined.
(** * After the connect timeout has fired *)

(** ** A Deferred that the client does not fire *)

Section Aside.
Variable d : Deferred.
Variable outcomes : list Outcome.
Variable C : StompClient -> Prop.
Hypothesis C_side :
  forall st st', connect_side st' = connect_side st -> C st -> C st'.

Ltac leaf_aside :=
  cbv beta in *;
  match goal with
  | H : aside _ _ _ /\ _ |- _ => destruct H as [(Hdis & Hfin & Hlt & Hres) HC]
  end;
  split;
  [ unfold aside, resolved in *; simpl in *;
    repeat split; solve [assumption | exact I | lia]
  | match goal with
    | HC' : C _ |- _ => eapply C_side; [| exact HC']; reflexivity
    end ].

Lemma fire_keeps_aside x o :
  ident x <> ident d ->
  keeps (fun st => aside d outcomes st /\ C st) (fire x o).
Proof.
  intros Hx. apply Nat.eqb_neq in Hx.
  unfold fire, run_callback, _disconnect, sendFrame, transport_write,
    transport_loseConnection.
  apply keeps_bind.
  - apply keeps_modify. intros st [(Hdis & Hfin & Hlt & Hres) HC]. split.
    + unfold aside, resolved in *. simpl.
      rewrite List.filter_app, map_app. simpl. rewrite Hx. simpl.
      rewrite app_nil_r. auto.
    + eapply C_side; [| exact HC]. reflexivity.
  - intros _. keeps_split; apply keeps_modify; intros ? ?; leaf_aside.
Qed.

Lemma disconnect_keeps_aside failure :
  keeps (fun st => aside d outcomes st /\ C st) (disconnect failure).
Proof.
  apply keeps_intro. intros st H.
  destruct (_disconnecting st) eqn:Hd.
  - rewrite disconnect_again by exact Hd. destruct failure; [| exact H].
    cbn [snd]. leaf_aside.
  - destruct failure; run_M; rewrite Hd; simpl;
      (destruct (bool_decide (_activeHandlers st ≠ ∅)); simpl;
       [| try destruct (_disconnectError st); simpl]); leaf_aside.
Qed.

Lemma finish_keeps_aside :
  keeps (fun st => aside d outcomes st /\ C st) _finish.
Proof.
  apply keeps_intro. intros st H. unfold _finish, _handlersInProgress. stepM.
  destruct (_finishedHandlersDeferred st) as [x|] eqn:Hslot; [| exact H].
  destruct (bool_decide (_activeHandlers st ≠ ∅)); [exact H |].
  assert (Hx : ident x <> ident d).
  { destruct H as [(_ & Hfin & _) _]. now rewrite Hslot in Hfin. }
  refine (keeps_elim (fun st => aside d outcomes st /\ C st) _ st _ H).
  apply keeps_bind; [now apply fire_keeps_aside |].
  intros _. apply keeps_modify; intros ? ?; leaf_aside.
Qed.

Lemma messageHandlerFailed_keeps_aside e messageId msg errDest :
  keeps (fun st => aside d outcomes st /\ C st)
    (_messageHandlerFailed e messageId msg errDest).
Proof.
  unfold _messageHandlerFailed, send, _ack, sendFrame, transport_write, log_record.
  keeps_split; try apply disconnect_keeps_aside;
    apply keeps_modify; intros ? ?; leaf_aside.
Qed.

Lemma resume_keeps_aside k outcome :
  keeps (fun st => aside d outcomes st /\ C st) (_handleMessage_resume k outcome).
Proof.
  unfold _handleMessage_resume, _postProcessMessage, _handlerFinished, _ack,
    sendFrame, transport_write.
  keeps_split;
    try apply messageHandlerFailed_keeps_aside;
    try apply finish_keeps_aside;
    apply keeps_modify; intros ? ?; leaf_aside.
Qed.

Lemma handleMessage_keeps_aside msg :
  keeps (fun st => aside d outcomes st /\ C st) (_handleMessage msg).
Proof.
  unfold _handleMessage, _handleMessage_gen, _handlerStarted, log_record.
  keeps_split; try apply resume_keeps_aside;
    apply keeps_modify; intros ? ?; leaf_aside.
Qed.

Lemma handlerFired_keeps_aside messageId outcome :
  keeps (fun st => aside d outcomes st /\ C st) (handlerFired messageId outcome).
Proof.
  unfold handlerFired. keeps_split; try apply resume_keeps_aside;
    apply keeps_modify; intros ? ?; leaf_aside.
Qed.

Lemma subscribe_keeps_aside dest h hdrs kwargs :
  keeps (fun st => aside d outcomes st /\ C st) (subscribe dest h hdrs kwargs).
Proof.
  apply keeps_intro. intros st H.
  destruct (subscribe_shape dest h hdrs kwargs st) as (tok & s & subs & t & ->).
  cbn [snd]. leaf_aside.
Qed.

Lemma unsubscribe_keeps_aside tok :
  keeps (fun st => aside d outcomes st /\ C st) (unsubscribe tok).
Proof.
  unfold unsubscribe, sendFrame, transport_write, log_record.
  keeps_split; apply keeps_modify; intros ? ?; leaf_aside.
Qed.

Lemma send_keeps_aside dest msg hdrs :
  keeps (fun st => aside d outcomes st /\ C st) (send dest msg hdrs).
Proof.
  unfold send, sendFrame, transport_write.
  apply keeps_modify; intros ? ?; leaf_aside.
Qed.

Lemma quiet_dispatch_keeps_aside message :
  quiet_frame message = true ->
  keeps (fun st => aside d outcomes st /\ C st) (dispatch message).
Proof.
  unfold quiet_frame, dispatch. intros Hq.
  destruct (String.eqb (cmd message) "MESSAGE").
  - keeps_split. apply handleMessage_keeps_aside.
  - destruct (String.eqb (cmd message) "CONNECTED"); [discriminate |].
    destruct (String.eqb (cmd message) "ERROR"); [discriminate |].
    unfold _handleReceipt, log_record.
    keeps_split; apply keeps_modify; intros ? ?; leaf_aside.
Qed.

End Aside.

(** ** A connect that has failed, until the connection is lost *)

Lemma connect_failed_side d e st st' :
  connect_side st' = connect_side st -> connect_failed d e st -> connect_failed d e st'.
Proof.
  unfold connect_side, connect_failed, user_deferreds_plain.
  intros [= H1 H2 H3 H4]. rewrite H1, H2, H3, H4. auto.
Qed.

(** As long as no CONNECTED frame, no ERROR frame, no loss of the
    connection and no further [connect] is handled, the failed connect stays
    pending with its error on record. *)
Lemma step_keeps_timed_out d e ev st :
  quiet ev = true -> timed_out d e st -> timed_out d e (step ev st).
Proof.
  intros Hq H. pose proof (connect_failed_side d e) as Hside.
  destruct ev; simpl in Hq |- *; try discriminate.
  - exact (keeps_elim _ _ st (disconnect_keeps_aside d [] _ Hside failure) H).
  - exact (keeps_elim _ _ st (subscribe_keeps_aside d [] _ Hside dest h hdrs kwargs) H).
  - exact (keeps_elim _ _ st (unsubscribe_keeps_aside d [] _ Hside subscription) H).
  - exact (keeps_elim _ _ st (send_keeps_aside d [] _ Hside dest msg hdrs) H).
  - refine (keeps_elim _ _ st _ H). unfold dataReceived.
    apply keeps_forM_Forall. apply List.Forall_forall. intros m Hm.
    apply (quiet_dispatch_keeps_aside d [] _ Hside).
    rewrite List.forallb_forall in Hq. now apply Hq.
  - unfold exec. rewrite timeoutFired_unscheduled; [exact H | apply H].
  - exact (keeps_elim _ _ st (handlerFired_keeps_aside d [] _ Hside messageId outcome) H).
Qed.

Lemma run_keeps_timed_out d e es st :
  forallb quiet es = true -> timed_out d e st -> timed_out d e (run es st).
Proof.
  revert st. induction es as [|ev es IH]; intros st Hq H; [exact H |].
  simpl in Hq. apply andb_prop in Hq as [Hq1 Hq2].
  apply IH; [exact Hq2 |]. now apply step_keeps_timed_out.
Qed.

(** ** A Deferred that has been resolved *)

Lemma elsewhere_side d st st' :
  connect_side st' = connect_side st ->
  elsewhere d (_connectedDeferred st) -> elsewhere d (_connectedDeferred st').
Proof. unfold connect_side. intros [= H1 _ _ _]. now rewrite H1. Qed.

Ltac leaf_settled :=
  cbv beta in *;
  match goal with
  | H : settled _ _ _ |- _ => destruct H as [(Hdis & Hfin & Hlt & Hres) Hcon]
  end;
  unfold settled, aside, resolved in *; simpl in *;
  repeat split; solve [assumption | exact I | lia].

Lemma cancelConnectTimeout_shape st :
  _cancelConnectTimeout st = (Ret tt, with_connectTimeoutDelayedCall None st).
Proof.
  unfold _cancelConnectTimeout. stepM.
  destruct (_connectTimeoutDelayedCall st) eqn:E; [reflexivity |].
  unfold pass, mret, M_ret. f_equal. destruct st; simpl in *. now subst.
Qed.

Lemma fire_keeps_settled d outcomes x o :
  ident x <> ident d -> keeps (settled d outcomes) (fire x o).
Proof. exact (fire_keeps_aside d outcomes _ (elsewhere_side d) x o). Qed.

Lemma disconnect_keeps_settled d outcomes failure :
  keeps (settled d outcomes) (disconnect failure).
Proof. exact (disconnect_keeps_aside d outcomes _ (elsewhere_side d) failure). Qed.

Lemma subscribe_keeps_settled d outcomes dest h hdrs kwargs :
  keeps (settled d outcomes) (subscribe dest h hdrs kwargs).
Proof. exact (subscribe_keeps_aside d outcomes _ (elsewhere_side d) dest h hdrs kwargs). Qed.

Lemma connect_keeps_settled d outcomes login passcode timeout :
  keeps (settled d outcomes) (connect login passcode timeout).
Proof.
  apply keeps_intro. intros st H. destruct timeout; run_M; leaf_settled.
Qed.

Lemma handleConnected_keeps_settled d outcomes msg :
  keeps (settled d outcomes) (_handleConnected msg).
Proof.
  apply keeps_intro. intros st H. unfold _handleConnected.
  erewrite bind_ret by apply cancelConnectTimeout_shape.
  unfold newDeferred. stepM.
  match goal with
  | |- settled _ _ (?m ?s).2 => refine (keeps_elim (settled d outcomes) m s _ _)
  end.
  - apply keeps_bind.
    { unfold _replay. keeps_split; try apply subscribe_keeps_settled;
        apply keeps_modify; intros ? ?; leaf_settled. }
    intros _. apply keeps_bind_gets. intros st' H'.
    destruct (_connectedDeferred st') as [x|] eqn:Hslot; [| exact H'].
    assert (Hx : ident x <> ident d).
    { destruct H' as [_ Hcon]. now rewrite Hslot in Hcon. }
    refine (keeps_elim (settled d outcomes) _ st' _ H').
    apply keeps_bind; [now apply fire_keeps_settled |].
    intros _. apply keeps_modify; intros ? ?; leaf_settled.
  - cbv beta. leaf_settled.
Qed.

Lemma handleError_keeps_settled d outcomes msg :
  keeps (settled d outcomes) (_handleError msg).
Proof.
  unfold _handleError, log_record, transport_loseConnection. keeps_split;
    try apply disconnect_keeps_settled;
    apply keeps_modify; intros ? ?; leaf_settled.
Qed.

Lemma connectionLost_keeps_settled d outcomes reason :
  keeps (settled d outcomes) (connectionLost reason).
Proof.
  unfold connectionLost, _cancelConnectTimeout, _handleConnectionLostConnect,
    _handleConnectionLostDisconnect, log_record.
  apply keeps_bind; [keeps_split; apply keeps_modify; intros ? ?; leaf_settled |].
  intros _. apply keeps_bind.
  - apply keeps_bind_gets. intros st H.
    destruct (_connectedDeferred st) as [x|] eqn:Hslot; [| exact H].
    assert (Hx : ident x <> ident d).
    { destruct H as [_ Hcon]. now rewrite Hslot in Hcon. }
    refine (keeps_elim (settled d outcomes) _ st _ H). clear H.
    keeps_split;
      try (now apply fire_keeps_settled);
      apply keeps_modify; intros ? ?; leaf_settled.
  - intros _. apply keeps_bind_gets. intros st H.
    destruct (_disconnectedDeferred st) as [x|] eqn:Hslot; [| exact H].
    assert (Hx : ident x <> ident d).
    { destruct H as [(Hdis & _) _]. now rewrite Hslot in Hdis. }
    refine (keeps_elim (settled d outcomes) _ st _ H). clear H.
    keeps_split;
      try (now apply fire_keeps_settled);
      apply keeps_modify; intros ? ?; leaf_settled.
Qed.

(** Once resolved, a Deferred of the client is not fired again, whatever
    the client goes through. *)
Lemma step_keeps_settled d outcomes ev st :
  settled d outcomes st -> settled d outcomes (step ev st).
Proof.
  pose proof (elsewhere_side d) as Hside.
  destruct ev; simpl; apply keeps_elim.
  - apply connect_keeps_settled.
  - apply disconnect_keeps_settled.
  - apply subscribe_keeps_settled.
  - exact (unsubscribe_keeps_aside d outcomes _ Hside subscription).
  - exact (send_keeps_aside d outcomes _ Hside dest msg hdrs).
  - unfold dataReceived, dispatch, _handleReceipt, log_record.
    apply keeps_forM_. intros m. keeps_split;
      try exact (handleMessage_keeps_aside d outcomes _ Hside m);
      try apply handleConnected_keeps_settled;
      try apply handleError_keeps_settled;
      apply keeps_modify; intros ? ?; leaf_settled.
  - apply connectionLost_keeps_settled.
  - unfold timeoutFired, _connectTimeout, log_record, transport_loseConnection.
    keeps_split; apply keeps_modify; intros ? ?; leaf_settled.
  - exact (handlerFired_keeps_aside d outcomes _ Hside messageId outcome).
Qed.

Lemma run_keeps_settled d outcomes es st :
  settled d outcomes st -> settled d outcomes (run es st).
Proof.
  revert st. induction es as [|ev es IH]; intros st H; [exact H |].
  apply IH. now apply step_keeps_settled.
Qed.

(** ** The Deferreds in the slots are pending ones *)

Lemma unfired_resolved x st : unfired x (fired st) -> resolved x st = [].
Proof.
  unfold unfired, resolved. generalize (fired st).
  induction 1 as [|p l Hp _ IH]; [reflexivity |].
  simpl. destruct (Nat.eqb_spec p.1 (ident x)); [contradiction | exact IH].
Qed.

Lemma apart_sym a b : apart a b -> apart b a.
Proof. destruct a, b; simpl; auto. Qed.

Lemma pending_in_fired slot x o l n :
  apart (Some x) slot -> pending_in slot l n ->
  pending_in slot (l ++ [(ident x, o)])%list n.
Proof.
  destruct slot as [y|]; simpl; [| auto]. intros Hxy [Hlt Hun].
  split; [exact Hlt |]. apply Forall_app. split; [exact Hun |].
  constructor; [exact Hxy | constructor].
Qed.

Lemma pending_in_later slot l n : pending_in slot l n -> pending_in slot l (S n).
Proof. destruct slot; simpl; [| auto]. intros [Hlt Hun]. split; [lia | exact Hun]. Qed.

Lemma pending_in_created cbs l n :
  Forall (fun p : nat * Outcome => p.1 < n) l ->
  pending_in (Some {| ident := n; callbacks := cbs |}) l (S n).
Proof.
  intros H. simpl. split; [lia |]. unfold unfired. simpl.
  eapply Forall_impl; [exact H |]. simpl. intros p Hp. lia.
Qed.

Lemma apart_created cbs slot l n :
  pending_in slot l n -> apart (Some {| ident := n; callbacks := cbs |}) slot.
Proof. destruct slot; simpl; [| auto]. intros [Hlt _]. lia. Qed.

Lemma below_fired x o l n :
  ident x < n ->
  Forall (fun p : nat * Outcome => p.1 < n) l ->
  Forall (fun p : nat * Outcome => p.1 < n) (l ++ [(ident x, o)])%list.
Proof.
  intros Hx H. apply Forall_app. split; [exact H |]. constructor; [exact Hx | constructor].
Qed.

Lemma fired_once x o l :
  unfired x l -> NoDup (map fst l) -> NoDup (map fst (l ++ [(ident x, o)])%list).
Proof.
  intros Hun Hnd. rewrite map_app. simpl. apply NoDup_app. split; [exact Hnd |].
  split; [| apply NoDup_singleton].
  intros i Hi Hx. apply list_elem_of_singleton in Hx. subst i.
  apply list_elem_of_fmap in Hi as (p & Hp & Hin).
  unfold unfired in Hun. rewrite Forall_forall in Hun.
  apply (Hun p Hin). now symmetry.
Qed.

Lemma below_later l n :
  Forall (fun p : nat * Outcome => p.1 < n) l ->
  Forall (fun p : nat * Outcome => p.1 < S n) l.
Proof. intros H. eapply Forall_impl; [exact H |]. simpl. intros p Hp. lia. Qed.

Lemma slots_fresh_fire_connected x o dd df l n :
  slots_fresh (Some x) dd df l n ->
  slots_fresh None dd df (l ++ [(ident x, o)])%list n.
Proof.
  intros (Hpc & Hpd & Hb & [Hlt Hun] & Hd & Hf & Hcd & Hcf & Hdf & Hnd).
  repeat split; simpl; auto using below_fired, pending_in_fired, fired_once.
Qed.

Lemma slots_fresh_fire_disconnected c x o df l n :
  slots_fresh c (Some x) df l n ->
  slots_fresh c None df (l ++ [(ident x, o)])%list n.
Proof.
  intros (Hpc & Hpd & Hb & Hc & [Hlt Hun] & Hf & Hcd & Hcf & Hdf & Hnd).
  repeat split; simpl; auto using below_fired, pending_in_fired, apart_sym, fired_once.
  destruct c; exact I.
Qed.

Lemma slots_fresh_fire_finished c dd x o l n :
  slots_fresh c dd (Some x) l n ->
  slots_fresh c dd None (l ++ [(ident x, o)])%list n.
Proof.
  intros (Hpc & Hpd & Hb & Hc & Hd & [Hlt Hun] & Hcd & Hcf & Hdf & Hnd).
  repeat split; simpl; auto using below_fired, pending_in_fired, apart_sym, fired_once.
  - destruct c; exact I.
  - destruct dd; exact I.
Qed.

Lemma slots_fresh_new_connected c dd df l n :
  slots_fresh c dd df l n ->
  slots_fresh (Some {| ident := n; callbacks := [] |}) dd df l (S n).
Proof.
  intros (Hpc & Hpd & Hb & Hc & Hd & Hf & Hcd & Hcf & Hdf & Hnd).
  repeat split; eauto using below_later, pending_in_later, apart_created;
    simpl; try lia;
    unfold unfired; eapply Forall_impl; [exact Hb |]; simpl; intros p Hp; lia.
Qed.

Lemma slots_fresh_new_disconnected c dd df l n :
  slots_fresh c dd df l n ->
  slots_fresh c (Some {| ident := n; callbacks := [] |}) df l (S n).
Proof.
  intros (Hpc & Hpd & Hb & Hc & Hd & Hf & Hcd & Hcf & Hdf & Hnd).
  repeat split; eauto using below_later, pending_in_later, apart_created, apart_sym;
    simpl; try lia;
    unfold unfired; eapply Forall_impl; [exact Hb |]; simpl; intros p Hp; lia.
Qed.

Lemma slots_fresh_new_finished cbs c dd df l n :
  slots_fresh c dd df l n ->
  slots_fresh c dd (Some {| ident := n; callbacks := cbs |}) l (S n).
Proof.
  intros (Hpc & Hpd & Hb & Hc & Hd & Hf & Hcd & Hcf & Hdf & Hnd).
  repeat split; eauto using below_later, pending_in_later, apart_created, apart_sym;
    simpl; try lia;
    unfold unfired; eapply Forall_impl; [exact Hb |]; simpl; intros p Hp; lia.
Qed.

Ltac leaf_fresh := cbv beta in *; unfold fresh in *; simpl in *; assumption.

Lemma disconnect_keeps_fresh failure : keeps fresh (disconnect failure).
Proof.
  apply keeps_intro. intros st H.
  destruct (_disconnecting st) eqn:Hd.
  - rewrite disconnect_again by exact Hd. destruct failure; [| exact H].
    cbn [snd]. leaf_fresh.
  - destruct failure; run_M; rewrite Hd; simpl;
      (destruct (bool_decide (_activeHandlers st ≠ ∅)); simpl;
       [| try destruct (_disconnectError st); simpl]);
      unfold fresh in *; simpl;
      first [exact H | eapply slots_fresh_new_finished; exact H].
Qed.

Lemma finish_keeps_fresh : keeps fresh _finish.
Proof.
  apply keeps_intro. intros st H. unfold _finish, _handlersInProgress. stepM.
  destruct (_finishedHandlersDeferred st) as [x|] eqn:Hslot; [| exact H].
  destruct (bool_decide (_activeHandlers st ≠ ∅)); [exact H |].
  destruct (fire_shape x Success st) as (s & t & Hfire).
  erewrite bind_ret by exact Hfire. cbn [modify snd].
  unfold fresh in *. simpl. rewrite Hslot in H.
  now apply slots_fresh_fire_finished.
Qed.

Lemma messageHandlerFailed_keeps_fresh e messageId msg errDest :
  keeps fresh (_messageHandlerFailed e messageId msg errDest).
Proof.
  unfold _messageHandlerFailed, send, _ack, sendFrame, transport_write, log_record.
  keeps_split; try apply disconnect_keeps_fresh;
    apply keeps_modify; intros ? ?; leaf_fresh.
Qed.

Lemma resume_keeps_fresh k outcome : keeps fresh (_handleMessage_resume k outcome).
Proof.
  unfold _handleMessage_resume, _postProcessMessage, _handlerFinished, _ack,
    sendFrame, transport_write.
  keeps_split;
    try apply messageHandlerFailed_keeps_fresh;
    try apply finish_keeps_fresh;
    apply keeps_modify; intros ? ?; leaf_fresh.
Qed.

Lemma handleMessage_keeps_fresh msg : keeps fresh (_handleMessage msg).
Proof.
  unfold _handleMessage, _handleMessage_gen, _handlerStarted, log_record.
  keeps_split; try apply resume_keeps_fresh;
    apply keeps_modify; intros ? ?; leaf_fresh.
Qed.

Lemma subscribe_keeps_fresh dest h hdrs kwargs :
  keeps fresh (subscribe dest h hdrs kwargs).
Proof.
  apply keeps_intro. intros st H.
  destruct (subscribe_shape dest h hdrs kwargs st) as (tok & s & subs & t & ->).
  cbn [snd]. leaf_fresh.
Qed.

Lemma handleConnected_keeps_fresh msg : keeps fresh (_handleConnected msg).
Proof.
  apply keeps_intro. intros st H. unfold _handleConnected.
  erewrite bind_ret by apply cancelConnectTimeout_shape.
  unfold newDeferred. stepM.
  match goal with
  | |- fresh (?m ?s).2 => refine (keeps_elim fresh m s _ _)
  end.
  - apply keeps_bind.
    { unfold _replay. keeps_split; try apply subscribe_keeps_fresh;
        apply keeps_modify; intros ? ?; leaf_fresh. }
    intros _. apply keeps_intro. intros st' H'. stepM.
    destruct (_connectedDeferred st') as [x|] eqn:Hslot; [| exact H'].
    destruct (fire_shape x Success st') as (s & t & Hfire).
    erewrite bind_ret by exact Hfire. cbn [modify snd].
    unfold fresh in *. simpl. rewrite Hslot in H'.
    now apply slots_fresh_fire_connected.
  - unfold fresh in *. simpl. eapply slots_fresh_new_disconnected. exact H.
Qed.

Lemma handleError_keeps_fresh msg : keeps fresh (_handleError msg).
Proof.
  unfold _handleError, log_record, transport_loseConnection. keeps_split;
    try apply disconnect_keeps_fresh;
    apply keeps_modify; intros ? ?; leaf_fresh.
Qed.

Lemma connectionLost_keeps_fresh reason : keeps fresh (connectionLost reason).
Proof.
  unfold connectionLost.
  apply keeps_bind.
  { unfold _cancelConnectTimeout. keeps_split; apply keeps_modify; intros ? ?; leaf_fresh. }
  intros _. apply keeps_bind.
  - apply keeps_intro. intros st H. unfold _handleConnectionLostConnect, log_record. stepM.
    destruct (_connectedDeferred st) as [x|] eqn:Hslot; [| exact H].
    stepM. destruct (_connectError st) as [e|]; stepM;
      match goal with
      | |- context [(fire ?d ?o ≫= ?k) ?s0] =>
          destruct (fire_shape d o s0) as (s & t & Hfire);
          rewrite (bind_ret (fire d o) k s0 tt _ Hfire)
      end; cbn [modify snd]; unfold fresh in *; simpl; rewrite Hslot in H;
      now apply slots_fresh_fire_connected.
  - intros _. apply keeps_intro. intros st H. unfold _handleConnectionLostDisconnect. stepM.
    destruct (_disconnectedDeferred st) as [x|] eqn:Hslot; [| exact H].
    stepM. destruct (_disconnecting st); stepM;
      cbn [_disconnectError with_disconnectError];
      try destruct (_disconnectError st) as [e|]; stepM;
      match goal with
      | |- context [(fire ?d ?o ≫= ?k) ?s0] =>
          destruct (fire_shape d o s0) as (s & t & Hfire);
          rewrite (bind_ret (fire d o) k s0 tt _ Hfire)
      end; stepM; cbn [modify snd]; unfold fresh in *; simpl; rewrite Hslot in H;
      now apply slots_fresh_fire_disconnected.
Qed.

Lemma step_keeps_fresh e st : fresh st -> fresh (step e st).
Proof.
  destruct e; simpl; apply keeps_elim.
  - apply keeps_intro. intros st' H. destruct timeout; run_M;
      unfold fresh in *; simpl; eapply slots_fresh_new_connected; exact H.
  - apply disconnect_keeps_fresh.
  - apply subscribe_keeps_fresh.
  - unfold unsubscribe, sendFrame, transport_write, log_record.
    keeps_split; apply keeps_modify; intros ? ?; leaf_fresh.
  - unfold send, sendFrame, transport_write.
    apply keeps_modify; intros ? ?; leaf_fresh.
  - unfold dataReceived, dispatch, _handleReceipt, log_record.
    apply keeps_forM_. intros m. keeps_split;
      try apply handleMessage_keeps_fresh;
      try apply handleConnected_keeps_fresh;
      try apply handleError_keeps_fresh;
      apply keeps_modify; intros ? ?; leaf_fresh.
  - apply connectionLost_keeps_fresh.
  - unfold timeoutFired, _connectTimeout, log_record, transport_loseConnection.
    keeps_split; apply keeps_modify; intros ? ?; leaf_fresh.
  - unfold handlerFired. keeps_split; try apply resume_keeps_fresh;
      apply keeps_modify; intros ? ?; leaf_fresh.
Qed.

(** Whatever the client has gone through since [__init__], its slots hold
    pending Deferreds, no two of them the same. *)
Lemma reachable_fresh session always es : fresh (run es (__init__ session always)).
Proof.
  assert (H : fresh (__init__ session always)).
  { unfold fresh, slots_fresh. simpl. repeat split; auto. constructor. }
  revert H. generalize (__init__ session always).
  induction es as [|e es IH]; intros st H; [exact H |].
  apply IH. now apply step_keeps_fresh.
Qed.

(** In every state the client reaches, a pending connect Deferred has not
    fired and is in no other slot. *)
Lemma reachable_pending_connect session always es d :
  let st := run es (__init__ session always) in
  _connectedDeferred st = Some d ->
  user_deferreds_plain st /\
  resolved d st = [] /\
  ident d < nextDeferred st /\
  elsewhere d (_disconnectedDeferred st) /\
  elsewhere d (_finishedHandlersDeferred st).
Proof.
  intros st Hd. pose proof (reachable_fresh session always es) as H.
  fold st in H. clearbody st. unfold fresh in H. rewrite Hd in H.
  destruct H as (Hpc & Hpd & Hb & [Hlt Hun] & _ & _ & Hcd & Hcf & _ & _).
  split; [split; [now rewrite Hd | exact Hpd] |].
  split; [now apply unfired_resolved |]. split; [exact Hlt |].
  split.
  - destruct (_disconnectedDeferred st); simpl in *; auto.
  - destruct (_finishedHandlersDeferred st); simpl in *; auto.
Qed.

Lemma filter_ident_absent i (l : list (nat * Outcome)) :
  i ∉ map fst l ->
  List.filter (fun p : nat * Outcome => Nat.eqb p.1 i) l = [].
Proof.
  induction l as [|p l IH]; [reflexivity |]. simpl. intros Hi.
  apply not_elem_of_cons in Hi as [Hp Hl].
  destruct (Nat.eqb_spec p.1 i) as [E|_]; [now symmetry in E | now apply IH].
Qed.

Lemma filter_ident_once i (l : list (nat * Outcome)) :
  NoDup (map fst l) ->
  length (List.filter (fun p : nat * Outcome => Nat.eqb p.1 i) l) <= 1.
Proof.
  induction l as [|p l IH]; simpl; [lia |]. intros Hnd.
  apply NoDup_cons in Hnd as [Hp Hnd].
  destruct (Nat.eqb_spec p.1 i) as [E|_]; [| now apply IH].
  simpl. rewrite filter_ident_absent; [simpl; lia |]. now rewrite <- E.
Qed.

(** Whatever the client goes through after [__init__], it fires no
    Deferred a second time: each Deferred it has created has been resolved
    at most once. *)
Theorem deferreds_fire_once session always es d :
  length (resolved d (run es (__init__ session always))) <= 1.
Proof.
  pose proof (reachable_fresh session always es) as H.
  destruct H as (_ & _ & _ & _ & _ & _ & _ & _ & _ & Hnd).
  unfold resolved. rewrite length_map. now apply filter_ident_once.
Qed.

(** ** The race between the connect timeout and CONNECTED *)

(** C1 (as the code has it). A connect is pending when its timeout fires,
    which records [StompConnectTimeout] and closes the transport.  Whatever
    the client handles next, as long as it is no CONNECTED frame, no ERROR
    frame, no loss of the connection and no further [connect]: when the
    connection is then lost, the connect Deferred fails with
    [StompConnectTimeout]; when instead a CONNECTED frame is handled, that
    frame fires the connect Deferred with success, and nothing that happens
    afterwards, the loss of the connection included, resolves it again.
    The hypotheses on [d] say that it is pending and sits in no other
    slot; they hold for the connect Deferred of every state the client
    reaches ([reachable_pending_connect]). *)
Theorem connect_timeout_race st d timeout es :
  _connectedDeferred st = Some d ->
  user_deferreds_plain st ->
  resolved d st = [] ->
  ident d < nextDeferred st ->
  elsewhere d (_disconnectedDeferred st) ->
  elsewhere d (_finishedHandlersDeferred st) ->
  forallb quiet es = true ->
  let st1 := run es (exec (_connectTimeout timeout) st) in
  (forall reason,
     resolved d (exec (connectionLost reason) st1) =
       [Failure (StompConnectTimeout timeout)]) /\
  (forall msg es',
     resolved d (run es' (exec (_handleConnected msg) st1)) = [Success]).
Proof.
  intros Hd Hp Hres Hlt Hdis Hfin Hq st1.
  assert (H0 : timed_out d (StompConnectTimeout timeout)
                 (exec (_connectTimeout timeout) st)).
  { destruct Hp as [Hpc Hpd]. run_M. repeat split; assumption. }
  assert (H1 : timed_out d (StompConnectTimeout timeout) st1)
    by (now apply run_keeps_timed_out).
  clearbody st1. clear H0.
  destruct H1 as [(Hdis1 & Hfin1 & Hlt1 & Hres1) (Hd1 & He1 & Ht1 & Hp1)]. split.
  - intros reason. apply connectionLost_connect_error; try assumption.
    intros dd Hdd. now rewrite Hdd in Hdis1.
  - intros msg es'.
    assert (Hcb : callbacks d = []).
    { destruct Hp1 as [Hpc _]. now rewrite Hd1 in Hpc. }
    destruct (handleConnected_pending msg d st1 Hd1 Hcb) as (s & subs & t & Hc).
    unfold exec. rewrite Hc. cbn [snd].
    apply (run_keeps_settled d [Success] es').
    unfold settled, aside, resolved in *. simpl.
    rewrite List.filter_app, map_app, Hres1. simpl. rewrite Nat.eqb_refl.
    repeat split; solve [assumption | exact I | reflexivity | lia].
Qed.

Lemma connect_timeout_race_example :
  let st1 := run [EDataReceived [receiptFrame]; ESend "/queue/a" "hello" None;
                  ETimeoutFired]
               (exec (_connectTimeout 5) connecting) in
  resolved d0 (exec (connectionLost ConnectionDone) st1) =
    [Failure (StompConnectTimeout 5)] /\
  resolved d0 (run [ESubscribe "/queue/a" worker None ∅;
                    EConnectionLost ConnectionDone]
                 (exec (_handleConnected connectedFrame) st1)) = [Success].
Proof.
  pose proof (connect_timeout_race connecting d0 5
                [EDataReceived [receiptFrame]; ESend "/queue/a" "hello" None;
                 ETimeoutFired]) as H.
  destruct H as [H1 H2].
  - vm_compute. reflexivity.
  - split; vm_compute; [reflexivity | exact I].
  - vm_compute. reflexivity.
  - vm_compute. repeat constructor.
  - vm_compute. exact I.
  - vm_compute. exact I.
  - vm_compute. reflexivity.
  - split; [apply H1 | apply H2].
Defined.

(** An ERROR frame handled between the timeout and the loss of the
    connection replaces the recorded error: the connect Deferred then
    fails with the [StompProtocolError] of that frame. *)
Example error_after_timeout_replaces_cause :
  resolved d0 (run [ETimeoutFired; EDataReceived [errorFrame];
                    EConnectionLost ConnectionDone] connecting) =
    [Failure (StompProtocolError (ErrorWhileConnecting errorFrame))].
Proof. vm_compute. reflexivity. Qed.

(** * A cause that is off the record before the drain ends *)

(** C6. [disconnect] is called with a cause while the handler of "m1" is
    in flight, and the connection is lost before the handler completes.
    The loss fails the "disconnected" Deferred with the cause and takes the
    cause off the record ([_handleConnectionLostDisconnect]).  When the
    handler then completes, the drained [_disconnect] finds no disconnect
    error and clears the subscriptions of the Session, although the
    disconnect carried a cause.  Had the connection not been lost in
    between, the Session would have been left as it was. *)
Theorem cause_forgotten_before_drain_ends :
  let cause := HandlerError "boom" in
  let st1 := run [EDisconnect (Some cause)] working in
  let st2 := run [EConnectionLost ConnectionLost] st1 in
  let st3 := run [EHandlerFired "m1" Success] st2 in
  StompSession.subscriptions (_session working) <> [] /\
  _disconnectError st1 = Some cause /\
  resolved d1 st2 = [Failure cause] /\
  _disconnectError st2 = None /\
  _session st2 = _session working /\
  disconnects st2 = 0 /\
  disconnects st3 = 1 /\
  StompSession.subscriptions (_session st3) = [] /\
  _session (run [EHandlerFired "m1" Success] st1) = _session working.
Proof.
  repeat split; try (vm_compute; reflexivity). vm_compute. discriminate.
Qed.

(** * Unsubscribing from what the Session does not record *)

(** C8. [unsubscribe] asks the Session for the frame before it enters the
    [try] that guards the local registry.  For a token the Session has no
    record of, the [UnknownSubscription] error of the Session therefore
    reaches the caller: no warning is logged and the client is left as it
    was, whatever the local registry holds. *)
Theorem unsubscribe_unknown_token_propagates st tok :
  StompSession.get tok (StompSession.subscriptions (_session st)) = None ->
  unsubscribe tok st = (Raise (UnknownSubscription tok), st).
Proof.
  intros Hget. unfold unsubscribe, StompSession.unsubscribe. stepM.
  rewrite Hget. reflexivity.
Qed.

(** Unsubscribing twice: the first call removes the subscription, the
    second one raises. *)
Lemma unsubscribe_twice_raises :
  let st := exec (unsubscribe tokenA) subscribed in
  (unsubscribe tokenA subscribed).1 = Ret tt /\
  _subscriptions st !! tokenA = None /\
  unsubscribe tokenA st = (Raise (UnknownSubscription tokenA), st).
Proof.
  split; [vm_compute; reflexivity |]. split; [vm_compute; reflexivity |].
  apply (unsubscribe_unknown_token_propagates (exec (unsubscribe tokenA) subscribed) tokenA).
  vm_compute. reflexivity.
Defined.
